(** * Gemininano: the on-device model wrapper and the offline cache worker

    A shallow embedding of [src/ai-core.js] (class [LocalAICore]) and of the
    fetch handler of [src/sw.js], with the properties of the session and
    request lifecycle proved over it.

    Conventions of the embedding:
    - JavaScript strings are [string]; a string is truthy when it is not
      empty.
    - A thrown value is a [JsError] carrying [error.name] and
      [error.message].
    - The host objects (sessions, abort controllers) are shared, mutable
      objects in the source.  They are identified here by a number, and the
      mutations the wrapper performs on them ([destroy()], [abort()]) are
      recorded in the [World].
    - An [async] method is split at its [await]s: the code up to the first
      [await] is a [_start] function, and [resume] runs a suspended call
      from one [await] to the next, given what the host answered.
    - Calls to the four callbacks and to the host are appended to a trace of
      [Event]s, in program order.  Callbacks are assumed to return normally
      and not to re-enter the object.  [console.log] and the
      [performance.now()] readings are diagnostics and are not modelled,
      except for whether a first-token time was taken. *)

From Stdlib Require Import NArith Ascii String.
From stdpp Require Import base gmap strings list pretty.

Open Scope string_scope.
Open Scope list_scope.

(** ** JavaScript helpers *)

(** Truthiness of a string value: [if (chunk)], [result || ...]. *)
Definition truthy (s : string) : bool :=
  match s with
  | EmptyString => false
  | String _ _ => true
  end.

(** [a || b] on strings. *)
Definition js_or (a b : string) : string := if truthy a then a else b.

(** [String.prototype.includes]. *)
Fixpoint includes (s sub : string) : bool :=
  if String.prefix sub s then true
  else match s with
       | EmptyString => false
       | String _ s' => includes s' sub
       end.

Record JsError := mkError { error_name : string; error_message : string }.

(** [new Error(msg)]. *)
Definition Error (msg : string) : JsError := mkError "Error" msg.

(** ** The host environment *)

(** What an awaited capability query settles to. *)
Inductive QueryOutcome :=
| QueryResolves (value : string)
| QueryRejects (e : JsError).

(** A language-model entry point: [window.ai.languageModel] or the global
    [LanguageModel].  [capabilities] and [availability] are present or not;
    when present they hold what the call settles to ([caps.available] for
    the first, the status string for the second). *)
Record AIInterface := {
  capabilities : option QueryOutcome;
  availability : option QueryOutcome
}.

Record Host := {
  userAgent : string;
  window_ai_languageModel : option AIInterface;
  LanguageModel : option AIInterface
}.

(** A model session object.  [promptStreaming] and [destroy] are optional
    methods; [prompt] is always there. *)
Record Session := {
  sid : nat;
  hasPromptStreaming : bool;
  hasDestroy : bool
}.

Definition Metadata := list (string * string).

Record CreateOptions := {
  temperature : N * N;         (* 0.7 as 7/10 *)
  topK : N;
  expectedOutputs : bool;      (* [{type: "text", languages: ["en"]}] or absent *)
  initialPrompts : option (list string)
}.

Inductive Event :=
| StreamingUpdate (chunk : string) (isStart : bool)
                  (action : string) (metadata : Metadata) (original : string)
| ProcessingComplete (result : string)
                     (action : string) (metadata : Metadata) (original : string)
| ErrorNotified (message : string)
| StatusChange (status : string)
| HostCapabilities
| HostAvailability
| HostCreate (namespaced : bool) (options : CreateOptions)
| HostDestroy (s : nat)
| HostPromptStreaming (s : nat) (prompt : string) (signal : nat)
| HostPrompt (s : nat) (prompt : string) (signal : nat)
| HostAbort (signal : nat).

(** ** Capability prober *)

Definition is_digit (c : ascii) : bool :=
  let n := N_of_ascii c in (48 <=? n)%N && (n <=? 57)%N.

(** The value of a maximal leading run of decimal digits. *)
Fixpoint digits_value (acc : N) (s : string) : N :=
  match s with
  | String c s' =>
      if is_digit c then digits_value (10 * acc + (N_of_ascii c - 48))%N s'
      else acc
  | EmptyString => acc
  end.

Definition starts_with_digit (s : string) : bool :=
  match s with
  | String c _ => is_digit c
  | EmptyString => false
  end.

Fixpoint drop_string (n : nat) (s : string) : string :=
  match n, s with
  | S n', String _ s' => drop_string n' s'
  | _, _ => s
  end.

(** [userAgent.match(/Chrome\/(\d+)/)] followed by [parseInt(match[1])]:
    the leftmost place where [Chrome/] is followed by a digit, and the
    number written by the digits there. *)
Fixpoint match_chrome (s : string) : option N :=
  let here :=
    if String.prefix "Chrome/" s
    then let rest := drop_string 7 s in
         if starts_with_digit rest then Some (digits_value 0 rest) else None
    else None in
  match here with
  | Some v => Some v
  | None => match s with
            | String _ s' => match_chrome s'
            | EmptyString => None
            end
  end.

Definition getChromeVersion (h : Host) : N :=
  match match_chrome (userAgent h) with
  | Some v => v
  | None => 0%N
  end.

Definition getAIInterface (h : Host) : option AIInterface :=
  match window_ai_languageModel h with
  | Some i => Some i
  | None => LanguageModel h
  end.

Record AvailabilityResult := {
  available : bool;
  status : string;
  error : option string
}.

(** The mapping of the status string, lines 82-102. *)
Definition availability_result (availability : string) : AvailabilityResult :=
  if bool_decide (availability = "readily") || bool_decide (availability = "available")
  then {| available := true; status := "ready"; error := None |}
  else if bool_decide (availability = "after-download")
          || bool_decide (availability = "downloading")
  then {| available := false; status := "downloading";
          error := Some "O modelo está sendo baixado..." |}
  else if bool_decide (availability = "downloadable")
  then {| available := false; status := "downloadable";
          error := Some "O modelo precisa ser baixado." |}
  else {| available := false; status := availability;
          error := Some ("Gemini Nano não disponível: " +:+ availability) |}.

Definition query_result (q : QueryOutcome) : AvailabilityResult :=
  match q with
  | QueryResolves v => availability_result v
  | QueryRejects e =>
      {| available := false; status := "error"; error := Some (error_message e) |}
  end.

Definition checkAvailability (h : Host) : AvailabilityResult * list Event :=
  let chromeVersion := getChromeVersion h in
  if (chromeVersion <? 127)%N then
    ({| available := false; status := "unsupported";
        error := Some ("Chrome 127+ é necessário (atual: "
                       +:+ pretty chromeVersion +:+ ")") |}, [])
  else
    match getAIInterface h with
    | None =>
        ({| available := false; status := "no-api";
            error := Some "A API LanguageModel não está disponível. Habilite as flags experimental-prompt-api-for-gemini-nano e optimization-guide-on-device-model." |}, [])
    | Some aiInterface =>
        match capabilities aiInterface with
        | Some q => (query_result q, [HostCapabilities])
        | None =>
            match availability aiInterface with
            | Some q => (query_result q, [HostAvailability])
            | None => (availability_result "no", [])
            end
        end
    end.


(** ** The wrapper object

    The fields of [LocalAICore].  A callback slot is [true] when a function
    has been registered in it; [abortController] holds the identity of the
    controller of the current request, or [None] for [null]. *)
Record LocalAICore := {
  session : option Session;
  isProcessing : bool;
  isInitialized : bool;
  abortController : option nat;
  onStreamingUpdate : bool;
  onProcessingComplete : bool;
  onError : bool;
  onStatusChange : bool
}.

(** [constructor()]. *)
Definition new_LocalAICore : LocalAICore :=
  {| session := None; isProcessing := false; isInitialized := false;
     abortController := None;
     onStreamingUpdate := false; onProcessingComplete := false;
     onError := false; onStatusChange := false |}.

(** [this.sessionParameters]. *)
Definition sessionParameters : N * N * N := (7, 10, 40)%N.

Definition set_session (s : option Session) (c : LocalAICore) : LocalAICore :=
  {| session := s; isProcessing := isProcessing c;
     isInitialized := isInitialized c; abortController := abortController c;
     onStreamingUpdate := onStreamingUpdate c;
     onProcessingComplete := onProcessingComplete c;
     onError := onError c; onStatusChange := onStatusChange c |}.

Definition set_isProcessing (b : bool) (c : LocalAICore) : LocalAICore :=
  {| session := session c; isProcessing := b;
     isInitialized := isInitialized c; abortController := abortController c;
     onStreamingUpdate := onStreamingUpdate c;
     onProcessingComplete := onProcessingComplete c;
     onError := onError c; onStatusChange := onStatusChange c |}.

Definition set_isInitialized (b : bool) (c : LocalAICore) : LocalAICore :=
  {| session := session c; isProcessing := isProcessing c;
     isInitialized := b; abortController := abortController c;
     onStreamingUpdate := onStreamingUpdate c;
     onProcessingComplete := onProcessingComplete c;
     onError := onError c; onStatusChange := onStatusChange c |}.

Definition set_abortController (a : option nat) (c : LocalAICore) : LocalAICore :=
  {| session := session c; isProcessing := isProcessing c;
     isInitialized := isInitialized c; abortController := a;
     onStreamingUpdate := onStreamingUpdate c;
     onProcessingComplete := onProcessingComplete c;
     onError := onError c; onStatusChange := onStatusChange c |}.

(** [setStreamingCallback], [setCompletionCallback], [setErrorCallback],
    [setStatusCallback], called with a function. *)
Definition setStreamingCallback (c : LocalAICore) : LocalAICore :=
  {| session := session c; isProcessing := isProcessing c;
     isInitialized := isInitialized c; abortController := abortController c;
     onStreamingUpdate := true;
     onProcessingComplete := onProcessingComplete c;
     onError := onError c; onStatusChange := onStatusChange c |}.

Definition setCompletionCallback (c : LocalAICore) : LocalAICore :=
  {| session := session c; isProcessing := isProcessing c;
     isInitialized := isInitialized c; abortController := abortController c;
     onStreamingUpdate := onStreamingUpdate c;
     onProcessingComplete := true;
     onError := onError c; onStatusChange := onStatusChange c |}.

Definition setErrorCallback (c : LocalAICore) : LocalAICore :=
  {| session := session c; isProcessing := isProcessing c;
     isInitialized := isInitialized c; abortController := abortController c;
     onStreamingUpdate := onStreamingUpdate c;
     onProcessingComplete := onProcessingComplete c;
     onError := true; onStatusChange := onStatusChange c |}.

Definition setStatusCallback (c : LocalAICore) : LocalAICore :=
  {| session := session c; isProcessing := isProcessing c;
     isInitialized := isInitialized c; abortController := abortController c;
     onStreamingUpdate := onStreamingUpdate c;
     onProcessingComplete := onProcessingComplete c;
     onError := onError c; onStatusChange := true |}.

(** The object together with the host it runs in and the state of the
    shared host objects: the sessions whose [destroy()] has been called, the
    controllers whose [abort()] has been called, and the supply of fresh
    identities for the objects that [create(...)] and
    [new AbortController()] return. *)
Record World := {
  core : LocalAICore;
  host : Host;
  destroyed : gset nat;
  aborted : gset nat;
  nextSession : nat;
  nextController : nat
}.

Definition with_core (c : LocalAICore) (w : World) : World :=
  {| core := c; host := host w; destroyed := destroyed w;
     aborted := aborted w; nextSession := nextSession w;
     nextController := nextController w |}.

Definition update_core (f : LocalAICore -> LocalAICore) (w : World) : World :=
  with_core (f (core w)) w.

(** [this.session.destroy()] on session [n]. *)
Definition session_destroy (n : nat) (w : World) : World :=
  {| core := core w; host := host w; destroyed := {[n]} ∪ destroyed w;
     aborted := aborted w; nextSession := nextSession w;
     nextController := nextController w |}.

(** [controller.abort()] on controller [n]. *)
Definition controller_abort (n : nat) (w : World) : World :=
  {| core := core w; host := host w; destroyed := destroyed w;
     aborted := {[n]} ∪ aborted w; nextSession := nextSession w;
     nextController := nextController w |}.

(** [new AbortController()]: a controller not seen before. *)
Definition new_AbortController (w : World) : nat * World :=
  (nextController w,
   {| core := core w; host := host w; destroyed := destroyed w;
      aborted := aborted w; nextSession := nextSession w;
      nextController := S (nextController w) |}).

(** The session object a successful [create(...)] resolves to: a new object
    with the given optional methods. *)
Definition new_session (streaming destroyable : bool) (w : World) : Session * World :=
  ({| sid := nextSession w; hasPromptStreaming := streaming;
      hasDestroy := destroyable |},
   {| core := core w; host := host w; destroyed := destroyed w;
      aborted := aborted w; nextSession := S (nextSession w);
      nextController := nextController w |}).

(** [updateStatus(status)]. *)
Definition updateStatus (w : World) (status : string) : list Event :=
  if onStatusChange (core w) then [StatusChange status] else [].

(** ** Session manager *)

(** What the awaited [create(createOptions)] settles to. *)
Inductive CreateOutcome :=
| Created (streaming destroyable : bool)
| CreateFailed (e : JsError).

Inductive CreateStep :=
| CreateAwaits
| CreateThrows (e : JsError).

(** Lines 144-147 of [createSession], shared with [destroy]. *)
Definition destroy_previous (w : World) : World * list Event :=
  match session (core w) with
  | Some s =>
      if hasDestroy s then (session_destroy (sid s) w, [HostDestroy (sid s)])
      else (w, [])
  | None => (w, [])
  end.

(** [createSession(initialPrompts)] up to its [await]: lines 144-168. *)
Definition createSession_start (w : World) (prompts : option (list string))
  : World * list Event * CreateStep :=
  let '(w1, ev1) := destroy_previous w in
  let namespaced := bool_decide (is_Some (window_ai_languageModel (host w))) in
  let global := bool_decide (is_Some (LanguageModel (host w))) in
  let createOptions :=
    {| temperature := (sessionParameters.1.1, sessionParameters.1.2);
       topK := sessionParameters.2;
       expectedOutputs := global && negb namespaced;
       initialPrompts := match prompts with
                         | Some (p :: ps) => Some (p :: ps)
                         | _ => None
                         end |} in
  if namespaced then (w1, ev1 ++ [HostCreate true createOptions], CreateAwaits)
  else if global then (w1, ev1 ++ [HostCreate false createOptions], CreateAwaits)
  else (w1, ev1, CreateThrows (mkError "ReferenceError" "LanguageModel is not defined")).

(** [createSession] after its [await] resolved: the assignment to
    [this.session], lines 166-174. *)
Definition createSession_finish (w : World) (streaming destroyable : bool) : World :=
  let '(s, w1) := new_session streaming destroyable w in
  update_core (set_session (Some s)) w1.

(** [createSession] run to its end, [o] being the host's answer.  The third
    component is the error the call rejects with, if any. *)
Definition createSession (w : World) (prompts : option (list string))
    (o : CreateOutcome) : World * list Event * option JsError :=
  let '(w1, ev, st) := createSession_start w prompts in
  match st with
  | CreateThrows e => (w1, ev, Some e)
  | CreateAwaits =>
      match o with
      | Created streaming destroyable =>
          (createSession_finish w1 streaming destroyable, ev, None)
      | CreateFailed e => (w1, ev, Some e)
      end
  end.

(** The object [initialize] returns.  [init_available] is the [available]
    key that the spread of the availability result brings along. *)
Record InitResult := {
  init_success : bool;
  init_available : option bool;
  init_status : string;
  init_error : option string
}.

(** [initialize()], [o] being the host's answer to [create] if it is
    asked. *)
Definition initialize (w : World) (o : CreateOutcome)
  : World * list Event * InitResult :=
  if isInitialized (core w) && bool_decide (is_Some (session (core w))) then
    (w, [], {| init_success := true; init_available := None;
               init_status := "ready"; init_error := None |})
  else
    let ev0 := updateStatus w "Verificando disponibilidade..." in
    let '(availability, ev1) := checkAvailability (host w) in
    if negb (available availability) then
      (w, ev0 ++ ev1,
       {| init_success := false;
          init_available := Some (available availability);
          init_status := status availability;
          init_error := error availability |})
    else
      let ev2 := updateStatus w "Criando sessão da IA..." in
      let '(w1, ev3, failure) := createSession w None o in
      match failure with
      | None =>
          (update_core (set_isInitialized true) w1,
           ev0 ++ ev1 ++ ev2 ++ ev3 ++ updateStatus w1 "IA pronta",
           {| init_success := true; init_available := None;
              init_status := "ready"; init_error := None |})
      | Some e =>
          (w1, ev0 ++ ev1 ++ ev2 ++ ev3,
           {| init_success := false; init_available := None;
              init_status := "error"; init_error := Some (error_message e) |})
      end.

(** [destroy()]. *)
Definition destroy (w : World) : World * list Event :=
  let '(w1, ev) := destroy_previous w in
  (update_core (fun c => set_isInitialized false
                           (set_isProcessing false (set_session None c))) w1,
   ev).

(** [isReady()]. *)
Definition isReady (w : World) : bool :=
  isInitialized (core w) && bool_decide (is_Some (session (core w)))
  && negb (isProcessing (core w)).

(** ** Request executor *)

(** The arguments of [processText(text, action, metadata)]. *)
Record Args := {
  text : string;
  action : string;
  metadata : Metadata
}.

(** [metrics]: the times are not modelled, only whether
    [timeToFirstToken] is a number ([true]) or [null]. *)
Record Metrics := { timeToFirstToken : bool }.

(** The objects [processText] returns: [{success, result, action, metrics}]
    and [{success, result, aborted}]; an absent [aborted] reads as false. *)
Record ProcessResult := {
  success : bool;
  result : string;
  aborted_flag : bool;
  result_action : option string;
  metrics : option Metrics
}.

Inductive Outcome :=
| Returned (r : ProcessResult)
| Thrown (e : JsError).

(** What the host does at an [await] of a suspended [processText]. *)
Inductive HostReply :=
| Chunk (chunk : string)          (* the stream yields a chunk *)
| StreamEnd                       (* the stream is done *)
| StreamThrows (e : JsError)      (* the stream (or opening it) throws *)
| PromptResolves (r : string)     (* [session.prompt] resolves *)
| PromptRejects (e : JsError)     (* [session.prompt] rejects *)
| CreateSettles (o : CreateOutcome).

(** A [processText] call suspended at one of its [await]s, with its live
    local variables. *)
Inductive Frame :=
| AwaitChunk (a : Args) (signal : nat) (result : string) (streamingStarted : bool)
    (* line 217, [for await (const chunk of stream)] *)
| AwaitFallback (a : Args) (signal : nat) (streamingStarted : bool)
    (* line 247 *)
| AwaitPrompt (a : Args) (signal : nat)
    (* line 255 *)
| AwaitCreate (a : Args)
    (* line 290, suspended inside [createSession] *)
| AwaitRetry (a : Args) (inner : Frame).
    (* line 292, waiting for the recursive call *)

Inductive Step :=
| Suspended (f : Frame)
| Finished (o : Outcome).

(** The [finally] block, lines 300-303. *)
Definition finally (w : World) : World :=
  update_core (fun c => set_abortController None (set_isProcessing false c)) w.

(** [if (this.onStreamingUpdate) this.onStreamingUpdate(chunk, isStart, action, metadata, text)]. *)
Definition notifyStreaming (w : World) (chunk : string) (isStart : bool)
    (a : Args) : list Event :=
  if onStreamingUpdate (core w)
  then [StreamingUpdate chunk isStart (action a) (metadata a) (text a)]
  else [].

(** Lines 262-277 and the [finally]: the normal end of a request. *)
Definition complete (w : World) (a : Args) (result : string)
    (firstToken : bool) : World * list Event * Step :=
  (finally w,
   (if onProcessingComplete (core w)
    then [ProcessingComplete result (action a) (metadata a) (text a)]
    else []),
   Finished (Returned {| success := true; result := result;
                         aborted_flag := false;
                         result_action := Some (action a);
                         metrics := Some {| timeToFirstToken := firstToken |} |})).

(** [processText] from its entry to its first [await]: the two
    precondition checks, then lines 189-215 or 189-255. *)
Definition processText_start (w : World) (a : Args) : World * list Event * Step :=
  match session (core w) with
  | None => (w, [], Finished (Thrown (Error "Sessão da IA não disponível")))
  | Some s =>
      if isProcessing (core w) then
        (w, [], Finished (Thrown (Error "Já processando outra requisição")))
      else
        let w1 := update_core (set_isProcessing true) w in
        let '(signal, w2) := new_AbortController w1 in
        let w3 := update_core (set_abortController (Some signal)) w2 in
        let ev := notifyStreaming w3 "" true a in
        if hasPromptStreaming s then
          (w3, ev ++ [HostPromptStreaming (sid s) (text a) signal],
           Suspended (AwaitChunk a signal "" false))
        else
          (w3, ev ++ [HostPrompt (sid s) (text a) signal],
           Suspended (AwaitPrompt a signal))
  end.

(** The outer [catch] block, lines 279-299, up to the [await] of
    [createSession] when the session is to be recreated; the [finally]
    block where the call ends here. *)
Definition catch_error (w : World) (a : Args) (e : JsError)
  : World * list Event * Step :=
  if bool_decide (error_name e = "AbortError") then
    (finally w, [],
     Finished (Returned {| success := false; result := "";
                           aborted_flag := true; result_action := None;
                           metrics := None |}))
  else if truthy (error_message e)
          && (includes (error_message e) "destroyed"
              || includes (error_message e) "quota") then
    let w1 := update_core (set_isInitialized false) w in
    let '(w2, ev, st) := createSession_start w1 None in
    match st with
    | CreateAwaits => (w2, ev, Suspended (AwaitCreate a))
    | CreateThrows e' => (finally w2, ev, Finished (Thrown e'))
    end
  else
    (finally w,
     (if onError (core w) then [ErrorNotified (error_message e)] else []),
     Finished (Thrown e)).

(** A suspended call runs from its [await] to the next one, or to its end.
    [None]: the host cannot give this answer at this [await]. *)
Fixpoint resume (w : World) (f : Frame) (r : HostReply)
  : option (World * list Event * Step) :=
  match f with
  | AwaitChunk a signal result streamingStarted =>
      match r with
      | Chunk chunk =>
          if truthy chunk then
            Some (w, notifyStreaming w chunk false a,
                  Suspended (AwaitChunk a signal (result +:+ chunk) true))
          else
            Some (w, [], Suspended (AwaitChunk a signal result streamingStarted))
      | StreamEnd => Some (complete w a result streamingStarted)
      | StreamThrows streamError =>
          if bool_decide (error_name streamError = "AbortError") then
            let w1 := update_core (fun c => set_abortController None
                                              (set_isProcessing false c)) w in
            Some (finally w1, [],
                  Finished (Returned {| success := false;
                                        result := js_or result "Parado pelo usuário";
                                        aborted_flag := true;
                                        result_action := None;
                                        metrics := None |}))
          else
            match session (core w) with
            | Some s =>
                Some (w, [HostPrompt (sid s) (text a) signal],
                      Suspended (AwaitFallback a signal streamingStarted))
            | None =>
                Some (catch_error w a
                        (mkError "TypeError"
                           "Cannot read properties of null (reading 'prompt')"))
            end
      | _ => None
      end
  | AwaitFallback a signal streamingStarted =>
      match r with
      | PromptResolves result =>
          let '(w1, ev, st) := complete w a result streamingStarted in
          Some (w1, notifyStreaming w result false a ++ ev, st)
      | PromptRejects e => Some (catch_error w a e)
      | _ => None
      end
  | AwaitPrompt a signal =>
      match r with
      | PromptResolves result =>
          let '(w1, ev, st) := complete w a result false in
          Some (w1, notifyStreaming w result false a ++ ev, st)
      | PromptRejects e => Some (catch_error w a e)
      | _ => None
      end
  | AwaitCreate a =>
      match r with
      | CreateSettles (Created streaming destroyable) =>
          let w1 := createSession_finish w streaming destroyable in
          let w2 := update_core (set_isInitialized true) w1 in
          let '(w3, ev, st) := processText_start w2 a in
          match st with
          | Finished o => Some (finally w3, ev, Finished o)
          | Suspended inner => Some (w3, ev, Suspended (AwaitRetry a inner))
          end
      | CreateSettles (CreateFailed e) => Some (finally w, [], Finished (Thrown e))
      | _ => None
      end
  | AwaitRetry a inner =>
      match resume w inner r with
      | Some (w1, ev, Finished o) => Some (finally w1, ev, Finished o)
      | Some (w1, ev, Suspended inner') =>
          Some (w1, ev, Suspended (AwaitRetry a inner'))
      | None => None
      end
  end.

(** [stopProcessing()]. *)
Definition stopProcessing (w : World) : World * list Event * bool :=
  match abortController (core w) with
  | Some c =>
      (update_core (fun c => set_isProcessing false (set_abortController None c))
         (controller_abort c w),
       [HostAbort c], true)
  | None => (w, [], false)
  end.

(** A suspended call driven by the host's answers, one per [await], with
    nothing else touching the object in between. *)
Fixpoint feed (w : World) (f : Frame) (script : list HostReply)
  : option (World * list Event * Step) :=
  match script with
  | [] => Some (w, [], Suspended f)
  | r :: rest =>
      match resume w f r with
      | Some (w1, ev, Suspended f1) =>
          match feed w1 f1 rest with
          | Some (w2, ev', st) => Some (w2, ev ++ ev', st)
          | None => None
          end
      | Some (w1, ev, Finished o) =>
          match rest with
          | [] => Some (w1, ev, Finished o)
          | _ :: _ => None
          end
      | None => None
      end
  end.

(** One call of [processText(text, action, metadata)] against a host that
    answers the successive [await]s of the call with [script].  The result
    is [Suspended] when the script ends while the call is still waiting. *)
Definition processText (w : World) (a : Args) (script : list HostReply)
  : option (World * list Event * Step) :=
  let '(w1, ev, st) := processText_start w a in
  match st with
  | Suspended f =>
      match feed w1 f script with
      | Some (w2, ev', st') => Some (w2, ev ++ ev', st')
      | None => None
      end
  | Finished o =>
      match script with
      | [] => Some (w1, ev, Finished o)
      | _ :: _ => None
      end
  end.

(** ** Reading a trace *)

(** The notifications the consumer sees: the calls of the four callbacks. *)
Definition is_notification (e : Event) : bool :=
  match e with
  | StreamingUpdate _ _ _ _ _ | ProcessingComplete _ _ _ _
  | ErrorNotified _ | StatusChange _ => true
  | _ => false
  end.

Definition notifications (ev : list Event) : list Event :=
  filter (fun e => is_notification e = true) ev.

Definition is_completion (e : Event) : bool :=
  match e with
  | ProcessingComplete _ _ _ _ => true
  | _ => false
  end.

(** The chunk texts forwarded to the streaming consumer, in order: the
    first argument of every streaming update that is not the start
    notification. *)
Fixpoint forwarded_chunks (ev : list Event) : list string :=
  match ev with
  | [] => []
  | StreamingUpdate chunk false _ _ _ :: ev' => chunk :: forwarded_chunks ev'
  | _ :: ev' => forwarded_chunks ev'
  end.

(** The host calls that take a cancellation token, with the token. *)
Fixpoint prompt_calls (ev : list Event) : list (bool * nat) :=
  match ev with
  | [] => []
  | HostPromptStreaming _ _ signal :: ev' => (true, signal) :: prompt_calls ev'
  | HostPrompt _ _ signal :: ev' => (false, signal) :: prompt_calls ev'
  | _ :: ev' => prompt_calls ev'
  end.

(** Concatenation of chunk texts. *)
Definition concat_chunks (chunks : list string) : string :=
  foldr String.append "" chunks.

(** The streaming updates for the chunks of a stream: one per non-empty
    chunk. *)
Definition chunk_updates (a : Args) (chunks : list string) : list Event :=
  map (fun chunk => StreamingUpdate chunk false (action a) (metadata a) (text a))
      (filter (fun chunk => truthy chunk = true) chunks).

(** A streamed request that is cancelled after the chunks [chunks] have
    arrived: the consumer calls [stopProcessing()] while the call waits for
    the next chunk, and the host then makes the stream throw [e]. *)
Definition cancelled_after (w : World) (a : Args) (chunks : list string)
    (e : JsError) : option (World * list Event * Step) :=
  match processText w a (map Chunk chunks) with
  | Some (w1, ev1, Suspended f) =>
      let '(w2, ev2, _) := stopProcessing w1 in
      match feed w2 f [StreamThrows e] with
      | Some (w3, ev3, st) => Some (w3, ev1 ++ ev2 ++ ev3, st)
      | None => None
      end
  | _ => None
  end.

(** ** The object under interleaved use

    A method of the object is [async]: it runs to its first [await], gives
    the control back to the page, and goes on when what it waits for has
    settled.  In between the page may call the object again.  A [System] is
    the world together with the calls that have not settled yet: the
    accepted calls of [processText] ([pending]) and the calls of
    [createSession] and [initialize] ([setups]).  An operation is a call by
    the page, run to its first [await], or a suspended call going on from
    its [await] to the next one.  [createSession] destroys the old session
    before its [await] and stores the new one after it; [initialize] waits
    for [checkAvailability] and then for [createSession]; a request goes on
    as [resume] says; [stopProcessing] and [destroy] have no [await]. *)

(** [initialize()] from its entry to [await this.checkAvailability()]
    (line 123), or to its return on line 118.  The call gives the control
    back to the page at that [await] whether or not [checkAvailability] had
    to ask the host; the trace has the queries made by then.  [None]: the
    call waits. *)
Definition initialize_start (w : World) : World * list Event * option InitResult :=
  if isInitialized (core w) && bool_decide (is_Some (session (core w))) then
    (w, [], Some {| init_success := true; init_available := None;
                    init_status := "ready"; init_error := None |})
  else
    (w, updateStatus w "Verificando disponibilidade..."
        ++ (checkAvailability (host w)).2,
     None).

(** [initialize()] from the moment the availability is known (line 124) to
    the [await] inside [createSession] ([None]: the call waits for
    [create]), or to its return. *)
Definition initialize_probed (w : World) : World * list Event * option InitResult :=
  let availability := (checkAvailability (host w)).1 in
  if negb (available availability) then
    (w, [],
     Some {| init_success := false;
             init_available := Some (available availability);
             init_status := status availability;
             init_error := error availability |})
  else
    let ev2 := updateStatus w "Criando sessão da IA..." in
    let '(w1, ev3, st) := createSession_start w None in
    match st with
    | CreateAwaits => (w1, ev2 ++ ev3, None)
    | CreateThrows e =>
        (w1, ev2 ++ ev3,
         Some {| init_success := false; init_available := None;
                 init_status := "error";
                 init_error := Some (error_message e) |})
    end.

(** [initialize()] once its call of [createSession] has returned: lines
    131-133. *)
Definition initialize_finish (w : World) : World * list Event * InitResult :=
  (update_core (set_isInitialized true) w, updateStatus w "IA pronta",
   {| init_success := true; init_available := None;
      init_status := "ready"; init_error := None |}).

(** A call of [initialize] or [createSession] that has not returned yet. *)
Inductive Setup :=
| Probing                          (* [initialize], at line 123 *)
| Creating (initializing : bool)   (* at [create]; [true] inside [initialize] *)
| Finishing.                       (* [initialize], at line 130, its
                                      [createSession] having stored the session *)

Inductive Op :=
| OpProcessText (a : Args)                      (* the page calls [processText] *)
| OpReply (request : nat) (r : HostReply)       (* the host answers a request *)
| OpStopProcessing
| OpDestroy
| OpCreateSession (prompts : option (list string))
| OpInitialize
| OpProbed (setup : nat)                        (* [checkAvailability] settles *)
| OpCreated (setup : nat) (o : CreateOutcome)   (* [create] settles *)
| OpInitialized (setup : nat).                  (* [initialize] goes on after
                                                   its [createSession] *)

Record System := {
  world : World;
  pending : gmap nat Frame;
  setups : gmap nat Setup;
  nextRequest : nat;
  nextSetup : nat
}.

(** One operation.  [None]: there is no such suspended call, or it does not
    wait for this. *)
Definition step (sys : System) (op : Op) : option System :=
  match op with
  | OpProcessText a =>
      let '(w, _, st) := processText_start (world sys) a in
      Some {| world := w;
              pending := match st with
                         | Suspended f => <[nextRequest sys := f]> (pending sys)
                         | Finished _ => pending sys
                         end;
              setups := setups sys;
              nextRequest := S (nextRequest sys);
              nextSetup := nextSetup sys |}
  | OpReply n r =>
      match pending sys !! n with
      | Some f =>
          match resume (world sys) f r with
          | Some (w, _, st) =>
              Some {| world := w;
                      pending := match st with
                                 | Suspended f' => <[n := f']> (pending sys)
                                 | Finished _ => delete n (pending sys)
                                 end;
                      setups := setups sys;
                      nextRequest := nextRequest sys;
                      nextSetup := nextSetup sys |}
          | None => None
          end
      | None => None
      end
  | OpStopProcessing =>
      Some {| world := (stopProcessing (world sys)).1.1;
              pending := pending sys; setups := setups sys;
              nextRequest := nextRequest sys; nextSetup := nextSetup sys |}
  | OpDestroy =>
      Some {| world := (destroy (world sys)).1;
              pending := pending sys; setups := setups sys;
              nextRequest := nextRequest sys; nextSetup := nextSetup sys |}
  | OpCreateSession prompts =>
      let '(w, _, st) := createSession_start (world sys) prompts in
      Some {| world := w;
              pending := pending sys;
              setups := match st with
                        | CreateAwaits => <[nextSetup sys := Creating false]> (setups sys)
                        | CreateThrows _ => setups sys
                        end;
              nextRequest := nextRequest sys;
              nextSetup := S (nextSetup sys) |}
  | OpInitialize =>
      let '(w, _, st) := initialize_start (world sys) in
      Some {| world := w;
              pending := pending sys;
              setups := match st with
                        | None => <[nextSetup sys := Probing]> (setups sys)
                        | Some _ => setups sys
                        end;
              nextRequest := nextRequest sys;
              nextSetup := S (nextSetup sys) |}
  | OpProbed n =>
      match setups sys !! n with
      | Some Probing =>
          let '(w, _, st) := initialize_probed (world sys) in
          Some {| world := w;
                  pending := pending sys;
                  setups := match st with
                            | None => <[n := Creating true]> (setups sys)
                            | Some _ => delete n (setups sys)
                            end;
                  nextRequest := nextRequest sys;
                  nextSetup := nextSetup sys |}
      | _ => None
      end
  | OpCreated n o =>
      match setups sys !! n with
      | Some (Creating initializing) =>
          match o with
          | Created streaming destroyable =>
              Some {| world := createSession_finish (world sys) streaming destroyable;
                      pending := pending sys;
                      setups := if initializing
                                then <[n := Finishing]> (setups sys)
                                else delete n (setups sys);
                      nextRequest := nextRequest sys;
                      nextSetup := nextSetup sys |}
          | CreateFailed _ =>
              (* [createSession] rejects; inside [initialize], lines 134-136
                 turn the error into the returned object *)
              Some {| world := world sys;
                      pending := pending sys;
                      setups := delete n (setups sys);
                      nextRequest := nextRequest sys;
                      nextSetup := nextSetup sys |}
          end
      | _ => None
      end
  | OpInitialized n =>
      match setups sys !! n with
      | Some Finishing =>
          Some {| world := (initialize_finish (world sys)).1.1;
                  pending := pending sys;
                  setups := delete n (setups sys);
                  nextRequest := nextRequest sys;
                  nextSetup := nextSetup sys |}
      | _ => None
      end
  end.

Fixpoint run (sys : System) (ops : list Op) : option System :=
  match ops with
  | [] => Some sys
  | op :: ops' =>
      match step sys op with
      | Some sys' => run sys' ops'
      | None => None
      end
  end.

(** A page that has just constructed the object and registered its four
    callbacks, as [initializeAI] of [app.js] does. *)
Definition boot (h : Host) : System :=
  {| world := {| core := setErrorCallback (setCompletionCallback
                           (setStreamingCallback (setStatusCallback new_LocalAICore)));
                 host := h; destroyed := ∅; aborted := ∅;
                 nextSession := 0; nextController := 0 |};
     pending := ∅;
     setups := ∅;
     nextRequest := 0;
     nextSetup := 0 |}.



(** Operations that leave the busy flag to the requests: everything but
    [stopProcessing] and [destroy]. *)
Definition undisturbed (op : Op) : bool :=
  match op with
  | OpStopProcessing | OpDestroy => false
  | _ => true
  end.

(** Operations in which the host does not refuse a [create]. *)
Definition create_granted (op : Op) : bool :=
  match op with
  | OpReply _ (CreateSettles (CreateFailed _)) => false
  | OpCreated _ (CreateFailed _) => false
  | _ => true
  end.

(** The call is suspended inside [createSession], between the [destroy()]
    of the old session and the assignment of the new one. *)
Fixpoint awaits_create (f : Frame) : bool :=
  match f with
  | AwaitCreate _ => true
  | AwaitRetry _ inner => awaits_create inner
  | _ => false
  end.

(** Some call is suspended inside [createSession]: a request that recovers
    its session, or a call of [createSession] or [initialize]. *)
Definition creation_in_progress (sys : System) : Prop :=
  (exists n f, pending sys !! n = Some f /\ awaits_create f = true)
  \/ (exists n initializing, setups sys !! n = Some (Creating initializing)).

(** ** The offline cache worker: the fetch handler of [sw.js] *)

Module SW.

Definition CACHE_NAME : string := "gemini-nano-offline-v1".

Record Request := {
  method : string;
  mode : string;
  url : string
}.

Record Response := {
  response_status : N;
  response_body : string
}.

(** [caches]: the named caches of the origin, in the order of their
    creation; a cache maps a request key to the stored response. *)
Definition CacheStorage := list (string * gmap string Response).

(** [caches.match(key)]: the first cache that has the key answers. *)
Fixpoint caches_match (caches : CacheStorage) (key : string) : option Response :=
  match caches with
  | [] => None
  | (_, cache) :: rest =>
      match cache !! key with
      | Some r => Some r
      | None => caches_match rest key
      end
  end.

(** [caches.open(name).then((cache) => cache.put(key, response))]: the cache
    is created when it does not exist. *)
Fixpoint caches_put (caches : CacheStorage) (name key : string)
    (response : Response) : CacheStorage :=
  match caches with
  | [] => [(name, {[key := response]})]
  | (n, cache) :: rest =>
      if decide (n = name) then (n, <[key := response]> cache) :: rest
      else (n, cache) :: caches_put rest name key response
  end.

(** The entry stored under [key] in the cache called [name]. *)
Fixpoint cache_entry (caches : CacheStorage) (name key : string) : option Response :=
  match caches with
  | [] => None
  | (n, cache) :: rest =>
      if decide (n = name) then cache !! key else cache_entry rest name key
  end.

(** What the handler does with the event: nothing, or
    [event.respondWith(p)] where [p] settles to a response or to
    [undefined]. *)
Inductive Answer :=
| PassThrough
| RespondWith (r : option Response).

Record Handled := {
  answer : Answer;
  fetched : list Request;        (* the calls of [fetch], in order *)
  caches_after : CacheStorage
}.

(** The listener of [fetch] events, lines 31-70.  [network request] is what
    [fetch(request)] settles to: a response, or [None] when it rejects. *)
Definition onFetch (network : Request -> option Response)
    (caches : CacheStorage) (request : Request) : Handled :=
  if negb (String.eqb (method request) "GET") then
    {| answer := PassThrough; fetched := []; caches_after := caches |}
  else if String.eqb (mode request) "navigate" then
    match network request with
    | Some response =>
        {| answer := RespondWith (Some response);
           fetched := [request];
           caches_after := caches_put caches CACHE_NAME "./index.html" response |}
    | None =>
        {| answer := RespondWith (caches_match caches "./index.html");
           fetched := [request];
           caches_after := caches |}
    end
  else
    match caches_match caches (url request) with
    | Some cachedResponse =>
        {| answer := RespondWith (Some cachedResponse);
           fetched := [];
           caches_after := caches |}
    | None =>
        match network request with
        | Some response =>
            {| answer := RespondWith (Some response);
               fetched := [request];
               caches_after := caches_put caches CACHE_NAME (url request) response |}
        | None =>
            {| answer := RespondWith None;
               fetched := [request];
               caches_after := caches |}
        end
    end.

End SW.

(** ** Concrete hosts and worlds used in the examples *)

Definition chrome_ua (version : string) : string :=
  "Mozilla/5.0 (X11; Linux x86_64) AppleWebKit/537.36 (KHTML, like Gecko) Chrome/"
  +:+ version +:+ ".0.0.0 Safari/537.36".

(** Chrome 120 with the global [LanguageModel] entry point. *)
Definition host_chrome120 : Host :=
  {| userAgent := chrome_ua "120";
     window_ai_languageModel := None;
     LanguageModel := Some {| capabilities := None;
                              availability := Some (QueryResolves "available") |} |}.

(** Chrome 138 whose [LanguageModel.availability()] resolves to [answer]. *)
Definition host_chrome138 (answer : string) : Host :=
  {| userAgent := chrome_ua "138";
     window_ai_languageModel := None;
     LanguageModel := Some {| capabilities := None;
                              availability := Some (QueryResolves answer) |} |}.

(** The world of a page right after start-up on the given host. *)
Definition world_booted (h : Host) : World := world (boot h).

(** The same page once [initialize()] has created a session with the given
    optional methods. *)
Definition world_ready (streaming destroyable : bool) : World :=
  (initialize (world_booted (host_chrome138 "available"))
              (Created streaming destroyable)).1.1.

Definition ask (t : string) : Args :=
  {| text := t; action := "ask"; metadata := [("conversationId", "1")] |}.

Definition AbortError : JsError :=
  mkError "AbortError" "signal is aborted without reason".

Definition session_destroyed_error : JsError :=
  mkError "InvalidStateError" "The session has been destroyed.".

(** The world of the example request while the recreated session is
    awaited. *)
Definition world_recreating : World :=
  match processText (world_ready false true) (ask "hi")
                    [PromptRejects session_destroyed_error] with
  | Some (w, _, _) => w
  | None => world_ready false true
  end.


(** A page that stops a streamed request and asks again at once. *)
Definition unwinding_ops : list Op :=
  [OpCreateSession None;
   OpCreated 0 (Created true true);
   OpProcessText (ask "first");
   OpReply 0 (Chunk "He");
   OpStopProcessing].

(** The same page going on: the second request is accepted, then the
    stopped first request unwinds. *)
Definition overlapping_ops : list Op :=
  unwinding_ops
  ++ [OpProcessText (ask "second");
      OpReply 0 (StreamThrows AbortError)].

(** A page that replaces its session and asks while [create] is awaited. *)
Definition recreating_ops : list Op :=
  [OpCreateSession None;
   OpCreated 0 (Created true true);
   OpCreateSession None].

(** A page that ran [initialize()] to its end on a host where the model is
    ready. *)
Definition initialize_ops : list Op :=
  [OpInitialize; OpProbed 0; OpCreated 0 (Created true true); OpInitialized 0].

(** The state of the page on that host after the given operations. *)
Definition system_after (ops : list Op) : System :=
  default (boot (host_chrome138 "available"))
          (run (boot (host_chrome138 "available")) ops).

(** A page that initialized the object on a host where the model is ready. *)
Definition system_ready : System := system_after initialize_ops.

(** The same page while a first request streams. *)
Definition system_streaming : System :=
  system_after (initialize_ops ++ [OpProcessText (ask "first"); OpReply 0 (Chunk "He")]).

Definition post_request : SW.Request :=
  {| SW.method := "POST"; SW.mode := "cors"; SW.url := "https://app.example/api" |}.

Definition navigate_request : SW.Request :=
  {| SW.method := "GET"; SW.mode := "navigate"; SW.url := "https://app.example/" |}.

Definition style_request : SW.Request :=
  {| SW.method := "GET"; SW.mode := "no-cors";
     SW.url := "https://app.example/style.css" |}.

Definition page_response : SW.Response :=
  {| SW.response_status := 200; SW.response_body := "<!doctype html>" |}.

Definition style_response : SW.Response :=
  {| SW.response_status := 200; SW.response_body := "body { margin: 0 }" |}.

(** A network that serves the page and nothing else. *)
Definition network_page_only (request : SW.Request) : option SW.Response :=
  if String.eqb (SW.url request) "https://app.example/" then Some page_response
  else None.

(** The cache of the worker holding the style sheet. *)
Definition caches_with_style : SW.CacheStorage :=
  [(SW.CACHE_NAME, {[ "https://app.example/style.css" := style_response ]})].

(** ** Vocabulary of the statements *)

Definition session_unavailable : JsError := Error "Sessão da IA não disponível".
Definition already_processing : JsError := Error "Já processando outra requisição".

(** The result object a finished call returned, if it returned one. *)
Definition returned (x : option (World * list Event * Step)) : option ProcessResult :=
  match x with
  | Some (_, _, Finished (Returned r)) => Some r
  | _ => None
  end.

(** The world once a call has been accepted: busy flag set, a new
    controller stored. *)
Definition accepted_world (w : World) : World :=
  update_core (set_abortController (Some (nextController w)))
    (new_AbortController (update_core (set_isProcessing true) w)).2.

(** The events of the streaming loop over the chunks that have arrived. *)
Definition loop_updates (w : World) (a : Args) (chunks : list string) : list Event :=
  if onStreamingUpdate (core w) then chunk_updates a chunks else [].

(** While a call is suspended and only the host has acted, the busy flag is
    set and the session handle is there. *)
Definition in_flight (w : World) : Prop :=
  isProcessing (core w) = true /\ is_Some (session (core w)).

Definition has_entry_point (h : Host) : Prop :=
  is_Some (window_ai_languageModel h) \/ is_Some (LanguageModel h).

(** Bookkeeping of the host objects: a stored handle comes with an entry
    point that created it, and every session seen so far is older than the
    next one. *)
Record world_ok (w : World) : Prop := {
  ok_entry : is_Some (session (core w)) -> has_entry_point (host w);
  ok_destroyed : forall n, n ∈ destroyed w -> n < nextSession w;
  ok_session : forall s, session (core w) = Some s -> sid s < nextSession w
}.

(** The stored handle, if any, is not a destroyed session. *)
Definition handle_live (w : World) : Prop :=
  forall s, session (core w) = Some s -> sid s ∉ destroyed w.

(** At most one request is in flight and the busy flag tells whether one
    is: the states met while nobody calls [stopProcessing] or [destroy]. *)
Inductive exclusive (sys : System) : Prop :=
| exclusive_idle :
    pending sys = ∅ ->
    isProcessing (core (world sys)) = false ->
    exclusive sys
| exclusive_busy n f :
    pending sys = {[ n := f ]} ->
    isProcessing (core (world sys)) = true ->
    is_Some (session (core (world sys))) ->
    exclusive sys.

(** Bookkeeping kept by every operation: the host objects and the calls are
    numbered in order, whoever waits for [create] found an entry point, and
    the flag is clear when no request is in flight. *)
Record sound (sys : System) : Prop := {
  sound_world : world_ok (world sys);
  sound_frames : forall n f, pending sys !! n = Some f ->
                             n < nextRequest sys /\ has_entry_point (host (world sys));
  sound_setups : forall n s, setups sys !! n = Some s ->
                             n < nextSetup sys /\
                             (s <> Probing -> has_entry_point (host (world sys)));
  sound_idle : pending sys = ∅ -> isProcessing (core (world sys)) = false
}.


(** The stored handle and the set of destroyed sessions are as they were. *)
Definition handle_kept (w w' : World) : Prop :=
  session (core w') = session (core w) /\ destroyed w' = destroyed w.


(** What a piece of [createSession] or [initialize] leaves alone. *)
Definition setup_effect (w w' : World) : Prop :=
  world_ok w' /\ host w' = host w /\
  isProcessing (core w') = isProcessing (core w) /\
  (is_Some (session (core w)) -> is_Some (session (core w'))).

(** * Capability prober *)

(** C6.  On a host whose Chrome version, as [getChromeVersion] reads it from
    the user agent, is below 127, [checkAvailability] returns
    [{available: false, status: 'unsupported'}] (with the message that
    names the version) and calls neither [capabilities()] nor
    [availability()]: the trace of host calls is empty. *)
Theorem checkAvailability_old_chrome (h : Host) :
  (getChromeVersion h < 127)%N ->
  checkAvailability h
  = ({| available := false; status := "unsupported";
        error := Some ("Chrome 127+ é necessário (atual: "
                       +:+ pretty (getChromeVersion h) +:+ ")") |}, []).
Proof.
  intros Hv. unfold checkAvailability.
  apply N.ltb_lt in Hv. by rewrite Hv.
Qed.

Lemma checkAvailability_old_chrome_witness :
  getChromeVersion host_chrome120 = 120%N /\
  checkAvailability host_chrome120
  = ({| available := false; status := "unsupported";
        error := Some "Chrome 127+ é necessário (atual: 120)" |}, []).
Proof.
  split; [ reflexivity | ].
  apply (checkAvailability_old_chrome host_chrome120). vm_compute. reflexivity.
Defined.

(** The two status strings the claim C7 names are reported unchanged by the
    prober, through either query shape. *)
Lemma probe_status_of_answer (h : Host) (i : AIInterface) (raw : string) :
  (127 <= getChromeVersion h)%N ->
  getAIInterface h = Some i ->
  (capabilities i = Some (QueryResolves raw)
   \/ capabilities i = None /\ availability i = Some (QueryResolves raw)) ->
  raw = "downloadable" \/ raw = "downloading" ->
  status (checkAvailability h).1 = raw /\ available (checkAvailability h).1 = false.
Proof.
  intros Hv Hi Hq Hraw. unfold checkAvailability.
  apply N.ltb_ge in Hv. rewrite Hv, Hi.
  destruct Hq as [-> | [-> ->]]; destruct Hraw as [-> | ->]; split; reflexivity.
Qed.

Lemma availability_result_ready (raw : string) :
  available (availability_result raw) = true ->
  status (availability_result raw) = "ready".
Proof. unfold availability_result. repeat case_match; simpl; congruence. Qed.

Lemma checkAvailability_ready (h : Host) :
  available (checkAvailability h).1 = true ->
  status (checkAvailability h).1 = "ready".
Proof.
  unfold checkAvailability.
  destruct (getChromeVersion h <? 127)%N; [ discriminate | ].
  destruct (getAIInterface h) as [i|]; [ | discriminate ].
  destruct (capabilities i) as [[raw|e]|];
    [ apply availability_result_ready | discriminate | ].
  destruct (availability i) as [[raw|e]|];
    [ apply availability_result_ready | discriminate | ].
  apply availability_result_ready.
Qed.

(** C7.  When [initialize] probes (it is not on its fast path) and the probe
    reports the status [downloadable] or [downloading], [initialize]
    returns [success: false] with [status] equal to the probe's status; it
    creates no session and leaves the object as it was. *)
Theorem initialize_not_ready_when_downloading (w : World) (o : CreateOutcome) (st : string) :
  isInitialized (core w) && bool_decide (is_Some (session (core w))) = false ->
  st = "downloadable" \/ st = "downloading" ->
  status (checkAvailability (host w)).1 = st ->
  init_success (initialize w o).2 = false /\
  init_status (initialize w o).2 = st /\
  (initialize w o).1.1 = w.
Proof.
  intros Hslow Hst Hprobe. unfold initialize. rewrite Hslow.
  pose proof (checkAvailability_ready (host w)) as Hready.
  destruct (checkAvailability (host w)) as [r ev]. simpl in Hprobe, Hready.
  destruct (available r).
  - rewrite Hready in Hprobe by reflexivity. destruct Hst; subst st; discriminate.
  - simpl. auto.
Qed.

Lemma initialize_not_ready_when_downloading_witness :
  init_success (initialize (world_booted (host_chrome138 "downloadable"))
                           (Created true true)).2 = false /\
  init_status (initialize (world_booted (host_chrome138 "downloadable"))
                          (Created true true)).2 = "downloadable" /\
  (initialize (world_booted (host_chrome138 "downloadable")) (Created true true)).1.1
  = world_booted (host_chrome138 "downloadable").
Proof.
  apply (initialize_not_ready_when_downloading
           (world_booted (host_chrome138 "downloadable")) (Created true true)
           "downloadable").
  - reflexivity.
  - left; reflexivity.
  - vm_compute. reflexivity.
Defined.

(** * Strings and traces *)

Lemma append_nil_r (s : string) : s +:+ "" = s.
Proof.
  induction s as [|c s IH]; [ reflexivity | exact (f_equal (String c) IH) ].
Qed.

Lemma append_assoc (s1 s2 s3 : string) : (s1 +:+ s2) +:+ s3 = s1 +:+ (s2 +:+ s3).
Proof.
  induction s1 as [|c s1 IH]; [ reflexivity | exact (f_equal (String c) IH) ].
Qed.

Lemma truthy_false (s : string) : truthy s = false -> s = "".
Proof. destruct s; simpl; congruence. Qed.

Lemma concat_chunks_truthy (chunks : list string) :
  concat_chunks (filter (fun chunk => truthy chunk = true) chunks)
  = concat_chunks chunks.
Proof.
  induction chunks as [|c cs IH]; [ reflexivity | ].
  rewrite filter_cons. destruct (decide (truthy c = true)) as [Hc|Hc]; simpl.
  - by rewrite IH.
  - apply not_true_is_false, truthy_false in Hc. subst c. exact IH.
Qed.

Lemma forwarded_chunks_app (ev1 ev2 : list Event) :
  forwarded_chunks (ev1 ++ ev2) = forwarded_chunks ev1 ++ forwarded_chunks ev2.
Proof.
  induction ev1 as [|e ev1 IH]; [ reflexivity | ].
  destruct e as [chunk [] ? ? ?| | | | | | | | | |]; simpl; by rewrite ?IH.
Qed.

Lemma forwarded_chunk_updates (a : Args) (chunks : list string) :
  forwarded_chunks (chunk_updates a chunks)
  = filter (fun chunk => truthy chunk = true) chunks.
Proof.
  unfold chunk_updates.
  induction (filter (fun chunk => truthy chunk = true) chunks) as [|c cs IH];
    simpl; [ reflexivity | by rewrite IH ].
Qed.

Lemma notifications_app (ev1 ev2 : list Event) :
  notifications (ev1 ++ ev2) = notifications ev1 ++ notifications ev2.
Proof. apply filter_app. Qed.

Lemma notifications_chunk_updates (a : Args) (chunks : list string) :
  notifications (chunk_updates a chunks) = chunk_updates a chunks.
Proof.
  unfold chunk_updates, notifications.
  induction (filter (fun chunk => truthy chunk = true) chunks) as [|c cs IH];
    [ reflexivity | ].
  simpl. rewrite filter_cons. simpl. by rewrite IH.
Qed.

Lemma prompt_calls_app (ev1 ev2 : list Event) :
  prompt_calls (ev1 ++ ev2) = prompt_calls ev1 ++ prompt_calls ev2.
Proof.
  induction ev1 as [|e ev1 IH]; [ reflexivity | ].
  destruct e; simpl; by rewrite ?IH.
Qed.

Lemma prompt_calls_chunk_updates (a : Args) (chunks : list string) :
  prompt_calls (chunk_updates a chunks) = [].
Proof.
  unfold chunk_updates.
  induction (filter (fun chunk => truthy chunk = true) chunks) as [|c cs IH];
    [ reflexivity | exact IH ].
Qed.

Lemma no_completion_in_chunk_updates (a : Args) (chunks : list string) :
  existsb is_completion (chunk_updates a chunks) = false.
Proof.
  unfold chunk_updates.
  induction (filter (fun chunk => truthy chunk = true) chunks) as [|c cs IH];
    [ reflexivity | exact IH ].
Qed.

(** * Driving a suspended call *)

Lemma feed_app (script1 script2 : list HostReply) :
  forall w f w1 ev1 f1,
    feed w f script1 = Some (w1, ev1, Suspended f1) ->
    feed w f (script1 ++ script2)
    = match feed w1 f1 script2 with
      | Some (w2, ev2, st) => Some (w2, ev1 ++ ev2, st)
      | None => None
      end.
Proof.
  induction script1 as [|r script1 IH]; intros w f w1 ev1 f1 H; simpl in *.
  - injection H as <- <- <-. by destruct (feed w f script2) as [[[? ?] ?]|].
  - destruct (resume w f r) as [[[w' ev'] [f'|o]]|]; [ | | discriminate ].
    + destruct (feed w' f' script1) as [[[w'' ev''] st'']|] eqn:Hfeed;
        [ | discriminate ].
      injection H as <- <- ->.
      rewrite (IH _ _ _ _ _ Hfeed).
      destruct (feed w'' f1 script2) as [[[? ?] ?]|]; [ | reflexivity ].
      by rewrite app_assoc.
    + destruct script1; discriminate.
Qed.

Lemma feed_chunks (chunks : list string) :
  forall w a signal acc started,
    feed w (AwaitChunk a signal acc started) (map Chunk chunks)
    = Some (w, loop_updates w a chunks,
            Suspended (AwaitChunk a signal (acc +:+ concat_chunks chunks)
                         (started || existsb truthy chunks))).
Proof.
  induction chunks as [|c cs IH]; intros w a signal acc started.
  - simpl. rewrite append_nil_r, orb_false_r. unfold loop_updates.
    by destruct (onStreamingUpdate (core w)).
  - cbn [map feed resume]. destruct (truthy c) eqn:Hc.
    + rewrite IH. unfold loop_updates, notifyStreaming, chunk_updates.
      rewrite filter_cons, decide_True by exact Hc.
      cbn [concat_chunks foldr existsb]. rewrite Hc, append_assoc, orb_true_r. simpl.
      by destruct (onStreamingUpdate (core w)).
    + rewrite IH. unfold loop_updates, chunk_updates.
      rewrite filter_cons, decide_False by congruence.
      apply truthy_false in Hc. subst c. reflexivity.
Qed.

(** * One request against the host *)

Lemma processText_more (w : World) (a : Args) (script rest : list HostReply) :
  forall w1 ev1 f1,
    processText w a script = Some (w1, ev1, Suspended f1) ->
    processText w a (script ++ rest)
    = match feed w1 f1 rest with
      | Some (w2, ev2, st) => Some (w2, ev1 ++ ev2, st)
      | None => None
      end.
Proof.
  intros w1 ev1 f1. unfold processText.
  destruct (processText_start w a) as [[w0 ev0] [f0|o]].
  - destruct (feed w0 f0 script) as [[[w' ev'] st']|] eqn:Hfeed; [ | discriminate ].
    intros H. injection H as <- <- ->.
    rewrite (feed_app script rest _ _ _ _ _ Hfeed).
    destruct (feed w' f1 rest) as [[[? ?] ?]|]; [ | reflexivity ].
    by rewrite app_assoc.
  - destruct script; discriminate.
Qed.

Lemma processText_start_streaming (w : World) (s : Session) (a : Args) :
  session (core w) = Some s ->
  hasPromptStreaming s = true ->
  isProcessing (core w) = false ->
  processText_start w a
  = (accepted_world w,
     notifyStreaming w "" true a ++ [HostPromptStreaming (sid s) (text a) (nextController w)],
     Suspended (AwaitChunk a (nextController w) "" false)).
Proof.
  intros Hs Hstream Hidle. unfold processText_start. rewrite Hs, Hidle, Hstream.
  reflexivity.
Qed.

Lemma processText_chunks (w : World) (s : Session) (a : Args) (chunks : list string) :
  session (core w) = Some s ->
  hasPromptStreaming s = true ->
  isProcessing (core w) = false ->
  processText w a (map Chunk chunks)
  = Some (accepted_world w,
          (notifyStreaming w "" true a
           ++ [HostPromptStreaming (sid s) (text a) (nextController w)])
          ++ loop_updates w a chunks,
          Suspended (AwaitChunk a (nextController w) (concat_chunks chunks)
                       (existsb truthy chunks))).
Proof.
  intros Hs Hstream Hidle. unfold processText.
  rewrite (processText_start_streaming w s a Hs Hstream Hidle), feed_chunks.
  reflexivity.
Qed.

(** C2.  A streamed request whose stream yields [chunks] and ends normally:
    the consumer sees the start notification, then one chunk notification
    per non-empty chunk in arrival order, then the completion notification,
    and nothing else; the call returns [success: true]; the text given to
    the completion callback is the returned text, and it is the
    concatenation of the forwarded chunks. *)
Theorem streamed_request_notifications
    (w : World) (s : Session) (a : Args) (chunks : list string) :
  session (core w) = Some s ->
  hasPromptStreaming s = true ->
  isProcessing (core w) = false ->
  onStreamingUpdate (core w) = true ->
  onProcessingComplete (core w) = true ->
  exists w' ev r,
    processText w a (map Chunk chunks ++ [StreamEnd])
    = Some (w', ev, Finished (Returned r)) /\
    success r = true /\
    notifications ev
    = StreamingUpdate "" true (action a) (metadata a) (text a)
      :: chunk_updates a chunks
      ++ [ProcessingComplete (result r) (action a) (metadata a) (text a)] /\
    concat_chunks (forwarded_chunks ev) = result r /\
    result r = concat_chunks chunks.
Proof.
  intros Hs Hstream Hidle Hcb Hdone.
  rewrite (processText_more _ _ _ _ _ _ _ (processText_chunks w s a chunks Hs Hstream Hidle)).
  unfold loop_updates, notifyStreaming. cbn. rewrite Hcb, Hdone.
  eexists _, _, _. split; [ reflexivity | ]. cbn.
  split; [ reflexivity | ].
  split; [ | split; [ | reflexivity ] ].
  - rewrite !notifications_app, notifications_chunk_updates. reflexivity.
  - rewrite !forwarded_chunks_app, forwarded_chunk_updates. cbn.
    rewrite app_nil_r. apply concat_chunks_truthy.
Qed.

Lemma streamed_request_notifications_witness :
  exists w' ev r,
    processText (world_ready true true) (ask "hi")
                (map Chunk ["He"; ""; "llo"] ++ [StreamEnd])
    = Some (w', ev, Finished (Returned r)) /\
    success r = true /\
    notifications ev
    = StreamingUpdate "" true "ask" [("conversationId", "1")] "hi"
      :: chunk_updates (ask "hi") ["He"; ""; "llo"]
      ++ [ProcessingComplete (result r) "ask" [("conversationId", "1")] "hi"] /\
    concat_chunks (forwarded_chunks ev) = result r /\
    result r = concat_chunks ["He"; ""; "llo"].
Proof.
  apply (streamed_request_notifications
           (world_ready true true)
           {| sid := 0; hasPromptStreaming := true; hasDestroy := true |}
           (ask "hi") ["He"; ""; "llo"]); reflexivity.
Defined.

(** C8.  A streamed request whose stream throws an error other than an
    [AbortError] after the chunks [chunks]: the executor makes one
    [session.prompt] call with the signal it gave to [promptStreaming];
    when that call resolves to [full], [full] is forwarded as one chunk and
    the completion callback and the returned result carry exactly [full],
    whatever partial text had accumulated. *)
Theorem stream_failure_falls_back_to_prompt
    (w : World) (s : Session) (a : Args) (chunks : list string)
    (e : JsError) (full : string) :
  session (core w) = Some s ->
  hasPromptStreaming s = true ->
  isProcessing (core w) = false ->
  onStreamingUpdate (core w) = true ->
  onProcessingComplete (core w) = true ->
  error_name e <> "AbortError" ->
  exists w' ev r,
    processText w a (map Chunk chunks ++ [StreamThrows e; PromptResolves full])
    = Some (w', ev, Finished (Returned r)) /\
    success r = true /\
    result r = full /\
    prompt_calls ev = [(true, nextController w); (false, nextController w)] /\
    notifications ev
    = StreamingUpdate "" true (action a) (metadata a) (text a)
      :: chunk_updates a chunks
      ++ [StreamingUpdate full false (action a) (metadata a) (text a);
          ProcessingComplete full (action a) (metadata a) (text a)].
Proof.
  intros Hs Hstream Hidle Hcb Hdone Hname.
  rewrite (processText_more _ _ _ _ _ _ _ (processText_chunks w s a chunks Hs Hstream Hidle)).
  cbn. rewrite bool_decide_eq_false_2 by exact Hname.
  repeat (progress (unfold loop_updates, notifyStreaming; cbn;
                    rewrite ?Hs, ?Hcb, ?Hdone)).
  eexists _, _, _. split; [ reflexivity | ]. cbn.
  split; [ reflexivity | ]. split; [ reflexivity | ]. split.
  - rewrite !prompt_calls_app, prompt_calls_chunk_updates. reflexivity.
  - rewrite !notifications_app, notifications_chunk_updates. reflexivity.
Qed.

Lemma stream_failure_falls_back_to_prompt_witness :
  exists w' ev r,
    processText (world_ready true true) (ask "hi")
                (map Chunk ["Hello"] ++ [StreamThrows (Error "network"); PromptResolves "Hi there"])
    = Some (w', ev, Finished (Returned r)) /\
    success r = true /\
    result r = "Hi there" /\
    prompt_calls ev = [(true, 0); (false, 0)] /\
    notifications ev
    = StreamingUpdate "" true "ask" [("conversationId", "1")] "hi"
      :: chunk_updates (ask "hi") ["Hello"]
      ++ [StreamingUpdate "Hi there" false "ask" [("conversationId", "1")] "hi";
          ProcessingComplete "Hi there" "ask" [("conversationId", "1")] "hi"].
Proof.
  apply (stream_failure_falls_back_to_prompt
           (world_ready true true)
           {| sid := 0; hasPromptStreaming := true; hasDestroy := true |}
           (ask "hi") ["Hello"] (Error "network") "Hi there");
    try reflexivity.
  discriminate.
Defined.

(** C3 as stated fails when nothing has arrived yet: the aborted result then
    carries the placeholder text, not the empty concatenation. *)
Lemma cancel_before_first_chunk_gives_placeholder :
  result <$> returned (cancelled_after (world_ready true true) (ask "hi") [] AbortError)
  = Some "Parado pelo usuário"
  /\ result <$> returned (cancelled_after (world_ready true true) (ask "hi") [] AbortError)
     <> Some (concat_chunks []).
Proof. split; [ reflexivity | discriminate ]. Qed.

(** C3, amended.  A streamed request cancelled while its stream is read,
    after the chunks [chunks] have arrived, returns
    [{success: false, aborted: true}] whose text is the concatenation of
    those chunks when that is not empty and ['Parado pelo usuário']
    otherwise; the completion callback is not called, and the busy flag is
    clear afterwards. *)
Theorem cancelled_stream_returns_partial_text
    (w : World) (s : Session) (a : Args) (chunks : list string) (e : JsError) :
  session (core w) = Some s ->
  hasPromptStreaming s = true ->
  isProcessing (core w) = false ->
  error_name e = "AbortError" ->
  exists w' ev r,
    cancelled_after w a chunks e = Some (w', ev, Finished (Returned r)) /\
    success r = false /\
    aborted_flag r = true /\
    result r = (if truthy (concat_chunks chunks) then concat_chunks chunks
                else "Parado pelo usuário") /\
    existsb is_completion ev = false /\
    isProcessing (core w') = false.
Proof.
  intros Hs Hstream Hidle Hname. unfold cancelled_after.
  rewrite (processText_chunks w s a chunks Hs Hstream Hidle).
  cbn. rewrite bool_decide_eq_true_2 by exact Hname.
  eexists _, _, _. split; [ reflexivity | ]. cbn.
  repeat split.
  rewrite !existsb_app. unfold loop_updates, notifyStreaming.
  destruct (onStreamingUpdate (core w)); cbn;
    rewrite ?no_completion_in_chunk_updates; reflexivity.
Qed.

Lemma cancelled_stream_returns_partial_text_witness :
  exists w' ev r,
    cancelled_after (world_ready true true) (ask "hi") ["He"; "llo"] AbortError
    = Some (w', ev, Finished (Returned r)) /\
    success r = false /\
    aborted_flag r = true /\
    result r = "Hello" /\
    existsb is_completion ev = false /\
    isProcessing (core w') = false.
Proof.
  apply (cancelled_stream_returns_partial_text
           (world_ready true true)
           {| sid := 0; hasPromptStreaming := true; hasDestroy := true |}
           (ask "hi") ["He"; "llo"] AbortError); reflexivity.
Defined.


(** * Admission of requests *)

Lemma processText_start_no_session (w : World) (a : Args) :
  session (core w) = None ->
  processText_start w a = (w, [], Finished (Thrown session_unavailable)).
Proof. intros H. unfold processText_start. by rewrite H. Qed.

Lemma processText_start_busy (w : World) (a : Args) :
  is_Some (session (core w)) ->
  isProcessing (core w) = true ->
  processText_start w a = (w, [], Finished (Thrown already_processing)).
Proof. intros [s Hs] H. unfold processText_start. by rewrite Hs, H. Qed.

Lemma processText_start_accepted (w : World) (a : Args) w' ev f :
  processText_start w a = (w', ev, Suspended f) ->
  is_Some (session (core w)) /\ isProcessing (core w) = false /\
  w' = accepted_world w.
Proof.
  unfold processText_start.
  destruct (session (core w)) as [s|]; [ | discriminate ].
  destruct (isProcessing (core w)); [ discriminate | ].
  destruct (hasPromptStreaming s); intros H; injection H as <- _ _; eauto.
Qed.

Lemma accepted_world_in_flight (w : World) :
  is_Some (session (core w)) -> in_flight (accepted_world w).
Proof. intros H. split; [ reflexivity | exact H ]. Qed.

Lemma destroy_previous_core (w : World) : core (destroy_previous w).1 = core w.
Proof.
  unfold destroy_previous.
  destruct (session (core w)) as [s|]; [ destruct (hasDestroy s) | ]; reflexivity.
Qed.

Lemma createSession_start_core (w : World) (prompts : option (list string)) :
  core (createSession_start w prompts).1.1 = core w.
Proof.
  unfold createSession_start.
  pose proof (destroy_previous_core w) as H.
  destruct (destroy_previous w) as [w1 ev1]. simpl in H.
  repeat case_match; exact H.
Qed.

Lemma catch_error_in_flight (w : World) (a : Args) (e : JsError) w' ev f :
  in_flight w ->
  catch_error w a e = (w', ev, Suspended f) ->
  in_flight w' /\ f = AwaitCreate a.
Proof.
  intros [Hbusy Hs]. unfold catch_error.
  destruct (bool_decide (error_name e = "AbortError")); [ discriminate | ].
  destruct (truthy (error_message e)
            && (includes (error_message e) "destroyed"
                || includes (error_message e) "quota")); [ | discriminate ].
  pose proof (createSession_start_core (update_core (set_isInitialized false) w) None) as Hc.
  destruct (createSession_start _ None) as [[w2 ev2] [|e']]; [ | discriminate ].
  intros H. injection H as <- _ <-. simpl in Hc.
  unfold in_flight. rewrite Hc. simpl. auto.
Qed.

Lemma resume_in_flight (f : Frame) :
  forall w r w' ev f',
    in_flight w ->
    resume w f r = Some (w', ev, Suspended f') ->
    in_flight w'.
Proof.
  induction f as [a signal acc started|a signal started|a signal|a|a inner IH];
    intros w r w' ev f' Hw H; cbn [resume] in H.
  - destruct r as [chunk| |e| | |]; try discriminate.
    + destruct (truthy chunk); injection H as <- _ _; exact Hw.
    + destruct (bool_decide (error_name e = "AbortError")); [ discriminate | ].
      destruct (session (core w)) as [s|] eqn:Hs.
      * injection H as <- _ _; exact Hw.
      * apply (inj Some) in H. by apply catch_error_in_flight in H as [H _].
  - destruct r as [| | |full|e|]; try discriminate.
    apply (inj Some) in H. by apply catch_error_in_flight in H as [H _].
  - destruct r as [| | |full|e|]; try discriminate.
    apply (inj Some) in H. by apply catch_error_in_flight in H as [H _].
  - destruct r as [| | | | |[streaming destroyable|e]]; try discriminate.
    destruct Hw as [Hbusy Hs].
    rewrite processText_start_busy in H by (simpl; eauto).
    discriminate.
  - destruct (resume w inner r) as [[[w1 ev1] [inner'|o]]|] eqn:Hr; [ | discriminate..].
    injection H as <- _ _. exact (IH _ _ _ _ _ Hw Hr).
Qed.

Lemma feed_in_flight (script : list HostReply) :
  forall w f w' ev f',
    in_flight w ->
    feed w f script = Some (w', ev, Suspended f') ->
    in_flight w'.
Proof.
  induction script as [|r script IH]; intros w f w' ev f' Hw H; simpl in H.
  - injection H as <- _ _. exact Hw.
  - destruct (resume w f r) as [[[w1 ev1] [f1|o]]|] eqn:Hr; [ | | discriminate ].
    + destruct (feed w1 f1 script) as [[[w2 ev2] st]|] eqn:Hfeed; [ | discriminate ].
      injection H as <- _ ->.
      exact (IH _ _ _ _ _ (resume_in_flight _ _ _ _ _ _ Hw Hr) Hfeed).
    + destruct script; discriminate.
Qed.

Lemma processText_in_flight (w : World) (a : Args) (script : list HostReply) w' ev f :
  processText w a script = Some (w', ev, Suspended f) ->
  in_flight w'.
Proof.
  unfold processText.
  destruct (processText_start w a) as [[w0 ev0] [f0|o]] eqn:Hstart.
  - apply processText_start_accepted in Hstart as (Hs & _ & ->).
    destruct (feed (accepted_world w) f0 script) as [[[w1 ev1] st]|] eqn:Hfeed;
      [ | discriminate ].
    intros H. injection H as <- _ ->.
    exact (feed_in_flight _ _ _ _ _ _ (accepted_world_in_flight w Hs) Hfeed).
  - destruct script; discriminate.
Qed.

(** C10.  A call of [processText] rejected by one of the two precondition
    checks throws and leaves the whole world as it was (so [session],
    [isProcessing], [isInitialized] and [abortController] keep their
    values), with an empty trace: no streaming, completion or error
    notification and no host call. *)
Theorem rejected_call_changes_nothing (w : World) (a : Args) :
  session (core w) = None \/ isProcessing (core w) = true ->
  exists e,
    processText w a [] = Some (w, [], Finished (Thrown e)) /\
    (e = session_unavailable \/ e = already_processing).
Proof.
  intros H. unfold processText.
  destruct (session (core w)) as [s|] eqn:Hs.
  - destruct H as [H|H]; [ discriminate | ].
    exists already_processing. rewrite processText_start_busy by eauto. auto.
  - exists session_unavailable. rewrite processText_start_no_session by done. auto.
Qed.

Lemma includes_truthy (s sub : string) :
  truthy sub = true -> includes s sub = true -> truthy s = true.
Proof. destruct s, sub; simpl; congruence. Qed.

(** The premise of C1: an error that is not an [AbortError] and whose
    message contains "destroyed" or "quota" sends the call into
    [createSession], where it waits for the host (one [create] call). *)
Lemma session_error_starts_recreation (w : World) (a : Args) (e : JsError) :
  error_name e <> "AbortError" ->
  includes (error_message e) "destroyed" || includes (error_message e) "quota" = true ->
  has_entry_point (host w) ->
  exists w' ev options,
    catch_error w a e
    = (w', ev ++ [HostCreate (bool_decide (is_Some (window_ai_languageModel (host w))))
                             options],
       Suspended (AwaitCreate a))
    /\ core w' = set_isInitialized false (core w).
Proof.
  intros Hname Hmsg Hentry. unfold catch_error.
  rewrite bool_decide_eq_false_2 by exact Hname.
  assert (truthy (error_message e) = true) as ->.
  { apply orb_prop in Hmsg as [H|H]; eapply includes_truthy; try exact H; reflexivity. }
  rewrite Hmsg. cbn [andb].
  unfold createSession_start.
  pose proof (destroy_previous_core (update_core (set_isInitialized false) w)) as Hc.
  destruct (destroy_previous _) as [w1 ev1]. cbn [fst] in Hc. cbn [host update_core with_core].
  destruct Hentry as [H|H].
  - rewrite (bool_decide_eq_true_2 _ H). eexists _, _, _. split; [ reflexivity | exact Hc ].
  - destruct (bool_decide (is_Some (window_ai_languageModel (host w)))).
    + eexists _, _, _. split; [ reflexivity | exact Hc ].
    + rewrite (bool_decide_eq_true_2 _ H). eexists _, _, _. split; [ reflexivity | exact Hc ].
Qed.

(** C1 (what the code does).  Once a request has failed with an error whose
    message contains "destroyed" or "quota" and the recreation of the
    session is awaited, a successful [create] is followed by the retried
    [processText], and that retry is rejected by the busy check of the
    object's own first call: the call as a whole throws "Já processando
    outra requisição", no prompt reaches the new session and no callback
    is called (the trace does not grow). *)
Theorem retry_after_recreation_is_rejected
    (w : World) (a : Args) (script : list HostReply) w1 ev1 a'
    (streaming destroyable : bool) :
  processText w a script = Some (w1, ev1, Suspended (AwaitCreate a')) ->
  exists w2 s,
    processText w a (script ++ [CreateSettles (Created streaming destroyable)])
    = Some (w2, ev1, Finished (Thrown already_processing)) /\
    session (core w2) = Some s /\
    sid s = nextSession w1 /\
    isProcessing (core w2) = false.
Proof.
  intros H. rewrite (processText_more _ _ _ _ _ _ _ H).
  apply processText_in_flight in H as [Hbusy Hs].
  cbn [feed resume].
  rewrite processText_start_busy by (simpl; eauto).
  rewrite app_nil_r. eexists _, _. split; [ reflexivity | ]. simpl. auto.
Qed.


Lemma rejected_call_changes_nothing_witness :
  exists e,
    processText (world_booted host_chrome120) (ask "hi") []
    = Some (world_booted host_chrome120, [], Finished (Thrown e)) /\
    (e = session_unavailable \/ e = already_processing).
Proof.
  apply (rejected_call_changes_nothing (world_booted host_chrome120) (ask "hi")).
  left. reflexivity.
Defined.

Lemma retry_after_recreation_is_rejected_witness :
  exists w2 s,
    processText (world_ready false true) (ask "hi")
                ([PromptRejects session_destroyed_error]
                 ++ [CreateSettles (Created false true)])
    = Some (w2,
            [StreamingUpdate "" true "ask" [("conversationId", "1")] "hi";
             HostPrompt 0 "hi" 0;
             HostDestroy 0;
             HostCreate false {| temperature := (7, 10)%N; topK := 40;
                                 expectedOutputs := true;
                                 initialPrompts := None |}],
            Finished (Thrown already_processing)) /\
    session (core w2) = Some s /\
    sid s = nextSession world_recreating /\
    isProcessing (core w2) = false.
Proof.
  apply (retry_after_recreation_is_rejected
           (world_ready false true) (ask "hi")
           [PromptRejects session_destroyed_error]
           world_recreating _ (ask "hi") false true).
  reflexivity.
Defined.

(** * Interleaved use: what the two checks guarantee *)



Lemma destroy_previous_spec (w : World) :
  let w1 := (destroy_previous w).1 in
  core w1 = core w /\ host w1 = host w /\ nextSession w1 = nextSession w /\
  forall n, n ∈ destroyed w1 ->
            n ∈ destroyed w \/ exists s, session (core w) = Some s /\ n = sid s.
Proof.
  unfold destroy_previous.
  destruct (session (core w)) as [s|]; [ destruct (hasDestroy s) | ]; simpl;
    repeat split; eauto.
  intros n Hn. apply elem_of_union in Hn as [Hn|Hn]; [ | eauto ].
  apply elem_of_singleton in Hn. eauto.
Qed.

Lemma createSession_start_spec (w : World) (prompts : option (list string)) :
  let w1 := (createSession_start w prompts).1.1 in
  core w1 = core w /\ host w1 = host w /\ nextSession w1 = nextSession w /\
  (forall n, n ∈ destroyed w1 ->
             n ∈ destroyed w \/ exists s, session (core w) = Some s /\ n = sid s) /\
  (has_entry_point (host w) -> (createSession_start w prompts).2 = CreateAwaits) /\
  (~ has_entry_point (host w) -> destroyed w1 = destroyed (destroy_previous w).1).
Proof.
  unfold createSession_start.
  pose proof (destroy_previous_spec w) as H.
  destruct (destroy_previous w) as [w1 ev1]. simpl in H.
  destruct H as (Hc & Hh & Hn & Hd). unfold has_entry_point.
  destruct (bool_decide (is_Some (window_ai_languageModel (host w)))) eqn:H1;
    [ simpl; by repeat split | ].
  destruct (bool_decide (is_Some (LanguageModel (host w)))) eqn:H2;
    [ simpl; by repeat split | ].
  simpl. repeat split; try done.
  apply bool_decide_eq_false in H1, H2. intros [?|?]; done.
Qed.

(** [createSession] waits for [create] exactly when the host has an entry
    point; without one it throws, and with no session stored it has then
    changed nothing. *)
Lemma createSession_start_awaits (w : World) (prompts : option (list string)) :
  ((createSession_start w prompts).2 = CreateAwaits <-> has_entry_point (host w))
  /\ (session (core w) = None ->
      (createSession_start w prompts).2 <> CreateAwaits ->
      (createSession_start w prompts).1.1 = w).
Proof.
  unfold createSession_start, destroy_previous, has_entry_point.
  destruct (session (core w)) as [s|]; [ destruct (hasDestroy s) | ];
    cbn [fst snd];
    destruct (bool_decide (is_Some (window_ai_languageModel (host w)))) eqn:H1;
    destruct (bool_decide (is_Some (LanguageModel (host w)))) eqn:H2;
    cbn [fst snd];
    try apply bool_decide_eq_true in H1; try apply bool_decide_eq_true in H2;
    try apply bool_decide_eq_false in H1; try apply bool_decide_eq_false in H2;
    (split; [ split; [ auto; try discriminate | auto ] | ]);
    try (intros [?|?]; done); try discriminate; try done; auto.
Qed.

Lemma world_ok_flags (w : World) (f : LocalAICore -> LocalAICore) :
  (forall c, session (f c) = session c) ->
  world_ok w -> world_ok (update_core f w).
Proof.
  intros Hf [He Hd Hs]. split; simpl.
  - rewrite Hf. exact He.
  - exact Hd.
  - intros s. rewrite Hf. apply Hs.
Qed.


Lemma world_ok_finally (w : World) : world_ok w -> world_ok (finally w).
Proof. apply world_ok_flags. reflexivity. Qed.


Lemma world_ok_accepted (w : World) : world_ok w -> world_ok (accepted_world w).
Proof. intros [He Hd Hs]. split; assumption. Qed.

Lemma createSession_finish_spec (w : World) (streaming destroyable : bool) :
  let w' := createSession_finish w streaming destroyable in
  has_entry_point (host w) ->
  (forall n, n ∈ destroyed w -> n < nextSession w) ->
  world_ok w' /\ handle_live w' /\ is_Some (session (core w'))
  /\ isProcessing (core w') = isProcessing (core w).
Proof.
  intros w' He Hd. subst w'. unfold createSession_finish. simpl.
  repeat split; simpl; eauto.
  - intros n Hn. apply Hd in Hn. lia.
  - intros s Hs. injection Hs as <-. simpl. lia.
  - intros s Hs. injection Hs as <-. simpl. intros Hn. apply Hd in Hn. lia.
Qed.

Lemma createSession_start_ok (w : World) (prompts : option (list string)) :
  world_ok w ->
  world_ok (createSession_start w prompts).1.1.
Proof.
  intros [He Hd Hs].
  destruct (createSession_start_spec w prompts) as (Hc & Hh & Hn & Hdest & _).
  split.
  - rewrite Hc, Hh. exact He.
  - intros n Hin. rewrite Hn.
    apply Hdest in Hin as [Hin | (s & Hsess & ->)]; eauto.
  - rewrite Hc, Hn. exact Hs.
Qed.

Lemma handle_kept_refl (w : World) : handle_kept w w.
Proof. by split. Qed.

Lemma handle_kept_flags (w w' : World) (f : LocalAICore -> LocalAICore) :
  (forall c, session (f c) = session c) ->
  handle_kept w w' -> handle_kept w (update_core f w').
Proof. intros Hf [H1 H2]. split; simpl; [ by rewrite Hf | exact H2 ]. Qed.


Lemma catch_error_world (w : World) (a : Args) (e : JsError) :
  world_ok w ->
  world_ok (catch_error w a e).1.1 /\ host (catch_error w a e).1.1 = host w.
Proof.
  intros Hok. unfold catch_error.
  destruct (bool_decide (error_name e = "AbortError"));
    [ split; [ by apply world_ok_finally | reflexivity ] | ].
  destruct (truthy (error_message e) && _);
    [ | split; [ by apply world_ok_finally | reflexivity ] ].
  set (w0 := update_core (set_isInitialized false) w).
  assert (world_ok w0) as Hok0 by (by apply world_ok_flags).
  pose proof (createSession_start_ok w0 None Hok0) as Hok1.
  pose proof (createSession_start_spec w0 None) as (_ & Hh & _).
  destruct (createSession_start w0 None) as [[w2 ev2] [|e']]; cbn [fst snd] in *.
  - by split.
  - split; [ by apply world_ok_finally | exact Hh ].
Qed.


Lemma resume_world (f : Frame) :
  forall w r w' ev st,
    world_ok w ->
    has_entry_point (host w) ->
    resume w f r = Some (w', ev, st) ->
    world_ok w' /\ host w' = host w.
Proof.
  induction f as [a signal acc started|a signal started|a signal|a|a inner IH];
    intros w r w' ev st Hok Hentry H; cbn [resume] in H.
  - destruct r as [chunk| |e| | |]; try discriminate.
    + destruct (truthy chunk); injection H as <- _ _; by split.
    + injection H as <- _ _. split; [ by apply world_ok_finally | reflexivity ].
    + destruct (bool_decide (error_name e = "AbortError")).
      * injection H as <- _ _.
        split; [ by apply world_ok_finally, world_ok_flags | reflexivity ].
      * destruct (session (core w)) as [s|].
        -- injection H as <- _ _. by split.
        -- apply (inj Some) in H.
           pose proof (catch_error_world w a
                         (mkError "TypeError"
                            "Cannot read properties of null (reading 'prompt')") Hok) as Hc.
           by rewrite H in Hc.
  - destruct r as [| | |full|e|]; try discriminate.
    + injection H as <- _ _. split; [ by apply world_ok_finally | reflexivity ].
    + apply (inj Some) in H. pose proof (catch_error_world w a e Hok) as Hc.
      by rewrite H in Hc.
  - destruct r as [| | |full|e|]; try discriminate.
    + injection H as <- _ _. split; [ by apply world_ok_finally | reflexivity ].
    + apply (inj Some) in H. pose proof (catch_error_world w a e Hok) as Hc.
      by rewrite H in Hc.
  - destruct r as [| | | | |[streaming destroyable|e]]; try discriminate.
    + destruct (createSession_finish_spec w streaming destroyable Hentry
                  (ok_destroyed w Hok)) as (H1 & _).
      set (w2 := update_core (set_isInitialized true)
                   (createSession_finish w streaming destroyable)) in H.
      assert (world_ok w2) as Hok2 by (by apply world_ok_flags).
      destruct (processText_start w2 a) as [[w3 ev3] [f3|o3]] eqn:Hstart.
      * apply processText_start_accepted in Hstart as (_ & _ & ->).
        injection H as <- _ _. split; [ by apply world_ok_accepted | reflexivity ].
      * assert (w3 = w2) as ->.
        { revert Hstart. unfold processText_start.
          repeat case_match; intros Heq; inversion Heq; reflexivity. }
        injection H as <- _ _. split; [ by apply world_ok_finally | reflexivity ].
    + injection H as <- _ _. split; [ by apply world_ok_finally | reflexivity ].
  - destruct (resume w inner r) as [[[w1 ev1] [inner'|o]]|] eqn:Hr; [ | | discriminate ].
    + injection H as <- _ _. exact (IH _ _ _ _ _ Hok Hentry Hr).
    + injection H as <- _ _.
      destruct (IH _ _ _ _ _ Hok Hentry Hr) as [H1 H2].
      split; [ by apply world_ok_finally | exact H2 ].
Qed.


Lemma resume_cleans_up (f : Frame) :
  forall w r w' ev o,
    resume w f r = Some (w', ev, Finished o) ->
    isProcessing (core w') = false.
Proof.
  assert (forall w a e w' ev o,
             catch_error w a e = (w', ev, Finished o) ->
             isProcessing (core w') = false) as Hcatch.
  { intros w a e w' ev o. unfold catch_error.
    repeat case_match; intros Heq; inversion Heq; subst; auto. }
  induction f as [a signal acc started|a signal started|a signal|a|a inner IH];
    intros w r w' ev o H; cbn [resume] in H.
  - destruct r as [chunk| |e| | |]; try discriminate.
    + destruct (truthy chunk); discriminate.
    + inversion H; subst; auto.
    + destruct (bool_decide (error_name e = "AbortError")).
      * inversion H; subst; auto.
      * destruct (session (core w)); [ discriminate | ].
        apply (inj Some) in H. eauto.
  - destruct r as [| | |full|e|]; try discriminate.
    + inversion H; subst; auto.
    + apply (inj Some) in H. eauto.
  - destruct r as [| | |full|e|]; try discriminate.
    + inversion H; subst; auto.
    + apply (inj Some) in H. eauto.
  - destruct r as [| | | | |[streaming destroyable|e]]; try discriminate.
    + destruct (processText_start _ a) as [[w3 ev3] [f3|o3]];
        inversion H; subst; auto.
    + inversion H; subst; auto.
  - destruct (resume w inner r) as [[[w1 ev1] [inner'|o1]]|]; [ discriminate | | discriminate ].
    inversion H; subst; auto.
Qed.

(** ** The pieces of [createSession] and [initialize] *)

Lemma setup_effect_refl (w : World) : world_ok w -> setup_effect w w.
Proof.
  intros Hok. split; [ exact Hok | ]. split; [ reflexivity | ].
  split; [ reflexivity | auto ].
Qed.

Lemma createSession_start_effect (w : World) (prompts : option (list string)) :
  world_ok w ->
  setup_effect w (createSession_start w prompts).1.1.
Proof.
  intros Hok. pose proof (createSession_start_ok w prompts Hok) as Hok'.
  destruct (createSession_start_spec w prompts) as (Hc & Hh & _).
  cbv zeta in Hc, Hh.
  split; [ exact Hok' | ]. split; [ exact Hh | ]. rewrite Hc.
  split; [ reflexivity | auto ].
Qed.

(** A [createSession] that throws at once has changed nothing. *)
Lemma createSession_start_throws (w : World) (prompts : option (list string)) :
  world_ok w ->
  (createSession_start w prompts).2 <> CreateAwaits ->
  (createSession_start w prompts).1.1 = w.
Proof.
  intros Hok Hthrows.
  destruct (createSession_start_awaits w prompts) as [Hiff Hsame].
  apply Hsame; [ | exact Hthrows ].
  destruct (session (core w)) as [s|] eqn:Hs; [ | reflexivity ].
  destruct Hthrows. apply Hiff. apply (ok_entry w Hok). by rewrite Hs.
Qed.

Lemma createSession_finish_effect (w : World) (streaming destroyable : bool) :
  world_ok w ->
  has_entry_point (host w) ->
  setup_effect w (createSession_finish w streaming destroyable)
  /\ handle_live (createSession_finish w streaming destroyable).
Proof.
  intros Hok Hentry.
  destruct (createSession_finish_spec w streaming destroyable Hentry
              (ok_destroyed w Hok)) as (H1 & H2 & H3 & H4).
  split; [ | exact H2 ]. split; [ exact H1 | ]. split; [ reflexivity | ].
  split; [ exact H4 | auto ].
Qed.

Lemma setup_effect_flag (w w' : World) (b : bool) :
  setup_effect w w' -> setup_effect w (update_core (set_isInitialized b) w').
Proof.
  intros (H1 & H2 & H3 & H4).
  split; [ by apply world_ok_flags | ]. split; [ exact H2 | ].
  split; [ exact H3 | exact H4 ].
Qed.

Lemma initialize_probed_effect (w : World) :
  world_ok w ->
  let '(w', _, st) := initialize_probed w in
  setup_effect w w' /\
  match st with
  | Some _ => w' = w
  | None => has_entry_point (host w)
  end.
Proof.
  intros Hok. unfold initialize_probed.
  destruct (negb (available (checkAvailability (host w)).1));
    [ split; [ by apply setup_effect_refl | reflexivity ] | ].
  pose proof (createSession_start_effect w None Hok) as Heff.
  pose proof (createSession_start_throws w None Hok) as Hthrows.
  destruct (createSession_start_awaits w None) as [Hiff _].
  destruct (createSession_start w None) as [[w1 ev1] [|e]]; cbn [fst snd] in *.
  - split; [ exact Heff | ]. by apply Hiff.
  - split; [ exact Heff | ]. by apply Hthrows.
Qed.

Lemma initialize_start_world (w : World) : (initialize_start w).1.1 = w.
Proof. unfold initialize_start. by destruct (isInitialized (core w) && _). Qed.

Lemma initialize_finish_effect (w : World) :
  world_ok w ->
  setup_effect w (initialize_finish w).1.1
  /\ handle_kept w (initialize_finish w).1.1.
Proof.
  intros Hok. unfold initialize_finish. cbn [fst snd].
  split; [ by apply setup_effect_flag, setup_effect_refl | ].
  apply handle_kept_flags; [ reflexivity | apply handle_kept_refl ].
Qed.

(** [initialize()] run to its end with nothing in between is the
    composition of its pieces. *)
Lemma initialize_in_pieces (w : World) (o : CreateOutcome) :
  initialize w o
  = let '(w1, ev1, st1) := initialize_start w in
    match st1 with
    | Some r => (w1, ev1, r)
    | None =>
        let '(w2, ev2, st2) := initialize_probed w1 in
        match st2 with
        | Some r => (w2, ev1 ++ ev2, r)
        | None =>
            match o with
            | Created streaming destroyable =>
                let '(w3, ev3, r) :=
                  initialize_finish (createSession_finish w2 streaming destroyable) in
                (w3, ev1 ++ ev2 ++ ev3, r)
            | CreateFailed e =>
                (w2, ev1 ++ ev2,
                 {| init_success := false; init_available := None;
                    init_status := "error";
                    init_error := Some (error_message e) |})
            end
        end
    end.
Proof.
  unfold initialize, initialize_start, initialize_probed, createSession,
    initialize_finish.
  destruct (isInitialized (core w) && _); [ reflexivity | ].
  destruct (checkAvailability (host w)) as [r ev1] eqn:Hc. cbn [fst snd].
  destruct (negb (available r));
    [ | destruct (createSession_start w None) as [[w1 ev3] [|e]];
        [ destruct o as [streaming destroyable|e] | ] ];
    cbn [fst snd];
    repeat first [ rewrite <- app_assoc | rewrite app_nil_r | progress cbn [app] ];
    reflexivity.
Qed.

(** [createSession] run to its end is [createSession_start] followed, when
    it waits, by the assignment of the session [create] resolved to. *)
Lemma createSession_in_pieces (w : World) (prompts : option (list string))
    (streaming destroyable : bool) :
  (createSession_start w prompts).2 = CreateAwaits ->
  (createSession w prompts (Created streaming destroyable)).1.1
  = createSession_finish (createSession_start w prompts).1.1 streaming destroyable.
Proof.
  unfold createSession.
  destruct (createSession_start w prompts) as [[w1 ev] st]. cbn [fst snd].
  by intros ->.
Qed.

(** ** The states a page can reach *)

Lemma processText_start_cases (w : World) (a : Args) :
  (exists ev f,
      processText_start w a = (accepted_world w, ev, Suspended f)
      /\ awaits_create f = false
      /\ is_Some (session (core w)) /\ isProcessing (core w) = false)
  \/ (exists e, processText_start w a = (w, [], Finished (Thrown e))).
Proof.
  unfold processText_start.
  destruct (session (core w)) as [s|] eqn:Hs; [ | right; eauto ].
  destruct (isProcessing (core w)) eqn:Hb; [ right; eauto | ].
  left. destruct (hasPromptStreaming s); eexists _, _;
    (split; [ reflexivity | ]); (split; [ reflexivity | ]); eauto.
Qed.

Lemma stopProcessing_spec (w : World) :
  let w' := (stopProcessing w).1.1 in
  session (core w') = session (core w) /\ host w' = host w /\
  destroyed w' = destroyed w /\ nextSession w' = nextSession w /\
  (isProcessing (core w') = false \/ w' = w).
Proof.
  unfold stopProcessing.
  destruct (abortController (core w)) as [c|]; cbn; repeat split; auto.
Qed.

Lemma destroy_spec (w : World) :
  let w' := (destroy w).1 in
  session (core w') = None /\ host w' = host w /\
  isProcessing (core w') = false /\ nextSession w' = nextSession w /\
  forall n, n ∈ destroyed w' ->
            n ∈ destroyed w \/ exists s, session (core w) = Some s /\ n = sid s.
Proof.
  unfold destroy.
  pose proof (destroy_previous_spec w) as H.
  destruct (destroy_previous w) as [w1 ev]. cbn [fst snd] in *.
  destruct H as (Hc & Hh & Hn & Hd). cbn. repeat split; auto.
Qed.

Lemma boot_sound (h : Host) : sound (boot h).
Proof.
  split; cbn.
  - split; cbn.
    + intros [s Hs]. discriminate.
    + intros n Hn. by apply not_elem_of_empty in Hn.
    + intros s Hs. discriminate.
  - intros n f H. rewrite lookup_empty in H. discriminate.
  - intros n s H. rewrite lookup_empty in H. discriminate.
  - reflexivity.
Qed.



(** How an operation may change the calls that wait, as far as the
    bookkeeping goes. *)
Lemma sound_after (sys sys' : System) :
  sound sys ->
  world_ok (world sys') ->
  host (world sys') = host (world sys) ->
  nextRequest sys <= nextRequest sys' ->
  nextSetup sys <= nextSetup sys' ->
  (forall n f, pending sys' !! n = Some f ->
               is_Some (pending sys !! n)
               \/ (n < nextRequest sys' /\ has_entry_point (host (world sys)))) ->
  (forall n s, setups sys' !! n = Some s ->
               setups sys !! n = Some s
               \/ (n < nextSetup sys' /\
                   (s <> Probing -> has_entry_point (host (world sys))))) ->
  (pending sys' = ∅ -> isProcessing (core (world sys')) = false) ->
  sound sys'.
Proof.
  intros [Hok Hfr Hse Hidle] Hok' Hh Hnr Hns Hfr' Hse' Hidle'.
  split; [ exact Hok' | | | exact Hidle' ].
  - intros n f H. rewrite Hh.
    destruct (Hfr' n f H) as [[f0 H0]|H0]; [ | exact H0 ].
    destruct (Hfr n f0 H0) as [H1 H2]. split; [ lia | exact H2 ].
  - intros n s H. rewrite Hh.
    destruct (Hse' n s H) as [H0|H0]; [ | exact H0 ].
    destruct (Hse n s H0) as [H1 H2]. split; [ lia | exact H2 ].
Qed.

Lemma world_ok_same (w w' : World) :
  session (core w') = session (core w) -> host w' = host w ->
  destroyed w' = destroyed w -> nextSession w' = nextSession w ->
  world_ok w -> world_ok w'.
Proof.
  intros Hs Hh Hd Hn [H1 H2 H3].
  split; rewrite ?Hs, ?Hh, ?Hd, ?Hn; assumption.
Qed.

Lemma step_sound (sys : System) (op : Op) (sys' : System) :
  sound sys -> step sys op = Some sys' -> sound sys'.
Proof.
  intros Hsound Hstep. pose proof Hsound as [Hok Hfr Hse Hidle].
  assert (forall n f, pending sys !! n = Some f ->
                      is_Some (pending sys !! n)
                      \/ (n < S (nextRequest sys)
                          /\ has_entry_point (host (world sys)))) as Hsame
    by (intros n f Hf; left; eauto).
  destruct op as [a|n r| | |prompts| |n|n o|n]; cbn [step] in Hstep.
  - (* processText *)
    destruct (processText_start_cases (world sys) a)
      as [(ev & f & Hstart & _ & Hs & Hb)|(e & Hstart)];
      rewrite Hstart in Hstep; injection Hstep as <-;
      apply (sound_after sys _ Hsound); cbn [world pending setups nextRequest nextSetup];
      [ by apply world_ok_accepted | reflexivity | lia | lia | | by left |
      | exact Hok | reflexivity | lia | lia | exact Hsame | by left
      | exact Hidle ].
    + intros n g Hg. apply lookup_insert_Some in Hg as [[<- <-]|[_ Hg]];
        [ right; split; [ lia | by apply (ok_entry _ Hok) ] | left; eauto ].
    + intros Hempty. by apply insert_non_empty in Hempty.
  - (* the host answers a request *)
    destruct (pending sys !! n) as [f|] eqn:Hf; [ | discriminate ].
    destruct (resume (world sys) f r) as [[[w ev] st]|] eqn:Hres; [ | discriminate ].
    injection Hstep as <-.
    destruct (Hfr n f Hf) as [Hn Hentry].
    destruct (resume_world f _ _ _ _ _ Hok Hentry Hres) as [Hok' Hh].
    apply (sound_after sys _ Hsound); cbn [world pending setups nextRequest nextSetup];
      [ exact Hok' | exact Hh | lia | lia | | by left | ].
    + intros m g Hg. left. destruct st as [f'|o].
      * apply lookup_insert_Some in Hg as [[<- _]|[_ Hg]]; eauto.
      * apply lookup_delete_Some in Hg as [_ Hg]. eauto.
    + destruct st as [f'|o].
      * intros Hempty. by apply insert_non_empty in Hempty.
      * intros _. exact (resume_cleans_up f _ _ _ _ _ Hres).
  - (* stopProcessing *)
    injection Hstep as <-.
    destruct (stopProcessing_spec (world sys)) as (H1 & H2 & H3 & H4 & H5).
    apply (sound_after sys _ Hsound); cbn [world pending setups nextRequest nextSetup];
      [ by apply (world_ok_same (world sys)) | exact H2 | lia | lia
      | by (intros m g Hg; left; eauto) | by left | ].
    intros Hempty. destruct H5 as [H5|H5]; [ exact H5 | rewrite H5; auto ].
  - (* destroy *)
    injection Hstep as <-.
    destruct (destroy_spec (world sys)) as (H1 & H2 & H3 & H4 & H5).
    apply (sound_after sys _ Hsound); cbn [world pending setups nextRequest nextSetup];
      [ | exact H2 | lia | lia | by (intros m g Hg; left; eauto) | by left
      | by intros _ ].
    split.
    + rewrite H1. intros [s Hs]. discriminate.
    + intros m Hm. rewrite H4.
      apply H5 in Hm as [Hm|(s & Hs & ->)];
        [ by apply (ok_destroyed _ Hok) | by apply (ok_session _ Hok) ].
    + rewrite H1. intros s Hs. discriminate.
  - (* createSession *)
    pose proof (createSession_start_effect (world sys) prompts Hok)
      as (Hok' & Hh & Hb & _).
    destruct (createSession_start_awaits (world sys) prompts) as [Hiff _].
    destruct (createSession_start (world sys) prompts) as [[w ev] st].
    cbn [fst snd] in *. injection Hstep as <-.
    apply (sound_after sys _ Hsound); cbn [world pending setups nextRequest nextSetup];
      [ exact Hok' | exact Hh | lia | lia | by (intros m g Hg; left; eauto) |
      | by (intros Hempty; etransitivity; [ exact Hb | auto ]) ].
    intros m s Hs. destruct st as [|e]; [ | by left ].
    apply lookup_insert_Some in Hs as [[<- <-]|[_ Hs]]; [ | by left ].
    right. split; [ lia | ]. intros _. by apply Hiff.
  - (* initialize *)
    pose proof (initialize_start_world (world sys)) as Hw.
    destruct (initialize_start (world sys)) as [[w ev] st].
    cbn [fst snd] in Hw. subst w. injection Hstep as <-.
    apply (sound_after sys _ Hsound); cbn [world pending setups nextRequest nextSetup];
      [ exact Hok | reflexivity | lia | lia | by (intros m g Hg; left; eauto) |
      | exact Hidle ].
    intros m s Hs. destruct st as [r|]; [ by left | ].
    apply lookup_insert_Some in Hs as [[<- <-]|[_ Hs]]; [ | by left ].
    right. split; [ lia | done ].
  - (* checkAvailability settles *)
    destruct (setups sys !! n) as [[|b|]|] eqn:Hn; try discriminate.
    pose proof (initialize_probed_effect (world sys) Hok) as Heff.
    destruct (initialize_probed (world sys)) as [[w ev] st].
    destruct Heff as [(Hok' & Hh & Hb & _) Hst]. injection Hstep as <-.
    destruct (Hse n _ Hn) as [Hlt _].
    apply (sound_after sys _ Hsound); cbn [world pending setups nextRequest nextSetup];
      [ exact Hok' | exact Hh | lia | lia | by (intros m g Hg; left; eauto) |
      | by (intros Hempty; etransitivity; [ exact Hb | auto ]) ].
    intros m s Hs. destruct st as [r|].
    + apply lookup_delete_Some in Hs as [_ Hs]. by left.
    + apply lookup_insert_Some in Hs as [[<- <-]|[_ Hs]]; [ | by left ].
      right. split; [ exact Hlt | by intros _ ].
  - (* create settles *)
    destruct (setups sys !! n) as [[|b|]|] eqn:Hn; try discriminate.
    destruct (Hse n _ Hn) as [Hlt Hentry]. specialize (Hentry ltac:(done)).
    destruct o as [streaming destroyable|e]; injection Hstep as <-.
    + destruct (createSession_finish_effect (world sys) streaming destroyable
                  Hok Hentry) as [(Hok' & Hh & Hb & _) _].
      apply (sound_after sys _ Hsound);
        cbn [world pending setups nextRequest nextSetup];
        [ exact Hok' | exact Hh | lia | lia | by (intros m g Hg; left; eauto) |
        | by (intros Hempty; etransitivity; [ exact Hb | auto ]) ].
      intros m s Hs. destruct b.
      * apply lookup_insert_Some in Hs as [[<- <-]|[_ Hs]]; [ | by left ].
        right. split; [ exact Hlt | by intros _ ].
      * apply lookup_delete_Some in Hs as [_ Hs]. by left.
    + apply (sound_after sys _ Hsound);
        cbn [world pending setups nextRequest nextSetup];
        [ exact Hok | reflexivity | lia | lia | by (intros m g Hg; left; eauto) |
        | exact Hidle ].
      intros m s Hs. apply lookup_delete_Some in Hs as [_ Hs]. by left.
  - (* initialize goes on after createSession *)
    destruct (setups sys !! n) as [[|b|]|] eqn:Hn; try discriminate.
    injection Hstep as <-.
    destruct (initialize_finish_effect (world sys) Hok) as [(Hok' & Hh & Hb & _) _].
    apply (sound_after sys _ Hsound);
      cbn [world pending setups nextRequest nextSetup];
      [ exact Hok' | exact Hh | lia | lia | by (intros m g Hg; left; eauto) |
      | by (intros Hempty; etransitivity; [ exact Hb | auto ]) ].
    intros m s Hs. apply lookup_delete_Some in Hs as [_ Hs]. by left.
Qed.

Lemma run_sound (ops : list Op) :
  forall sys sys', sound sys -> run sys ops = Some sys' -> sound sys'.
Proof.
  induction ops as [|op ops IH]; intros sys sys' Hsound Hrun; cbn [run] in Hrun.
  - by injection Hrun as <-.
  - destruct (step sys op) as [sys1|] eqn:Hstep; [ | discriminate ].
    eapply IH; [ | exact Hrun ]. eapply step_sound; eauto.
Qed.

(** *** One request at a time, while nobody stops or destroys *)

Lemma step_exclusive (sys : System) (op : Op) (sys' : System) :
  sound sys -> exclusive sys -> undisturbed op = true ->
  step sys op = Some sys' ->
  exclusive sys'.
Proof.
  intros [Hok Hfr Hse _] Hex Hop Hstep.
  assert (forall w, setup_effect (world sys) w ->
                    pending sys' = pending sys -> world sys' = w ->
                    exclusive sys') as Hsetup.
  { intros w (_ & _ & Hb & Hs) Hp Hw.
    destruct Hex as [Hp0 Hidle | n f Hp0 Hbusy Hs0].
    - apply exclusive_idle; [ by rewrite Hp | by rewrite Hw, Hb ].
    - apply (exclusive_busy _ n f);
        [ by rewrite Hp | by rewrite Hw, Hb | rewrite Hw; auto ]. }
  destruct op as [a|n r| | |prompts| |n|n o|n]; try discriminate;
    cbn [step] in Hstep.
  - (* processText *)
    destruct (processText_start_cases (world sys) a)
      as [(ev & f & Hstart & _ & Hs & Hb)|(e & Hstart)];
      rewrite Hstart in Hstep; injection Hstep as <-.
    + destruct Hex as [Hp0 Hidle | n g Hp0 Hbusy Hs0]; [ | congruence ].
      apply (exclusive_busy _ (nextRequest sys) f); cbn [world pending].
      * rewrite Hp0. apply insert_empty.
      * reflexivity.
      * exact Hs.
    + destruct Hex as [Hp0 Hidle | n g Hp0 Hbusy Hs0].
      * by apply exclusive_idle.
      * by apply (exclusive_busy _ n g).
  - (* the host answers a request *)
    destruct (pending sys !! n) as [f|] eqn:Hf; [ | discriminate ].
    destruct (resume (world sys) f r) as [[[w ev] st]|] eqn:Hres; [ | discriminate ].
    injection Hstep as <-.
    destruct Hex as [Hp0 Hidle | n0 g Hp0 Hbusy Hs0].
    { rewrite Hp0, lookup_empty in Hf. discriminate. }
    rewrite Hp0 in Hf. apply lookup_singleton_Some in Hf as [<- <-].
    destruct st as [f'|o].
    + destruct (resume_in_flight g _ _ _ _ _ (conj Hbusy Hs0) Hres) as [Hb' Hs'].
      apply (exclusive_busy _ n0 f'); cbn [world pending]; auto.
      rewrite Hp0. apply insert_singleton_eq.
    + apply exclusive_idle; cbn [world pending].
      * rewrite Hp0. apply delete_singleton_eq.
      * exact (resume_cleans_up g _ _ _ _ _ Hres).
  - (* createSession *)
    pose proof (createSession_start_effect (world sys) prompts Hok) as Heff.
    destruct (createSession_start (world sys) prompts) as [[w ev] st].
    injection Hstep as <-. by apply (Hsetup w).
  - (* initialize *)
    pose proof (initialize_start_world (world sys)) as Hw.
    destruct (initialize_start (world sys)) as [[w ev] st].
    cbn [fst snd] in Hw. subst w. injection Hstep as <-.
    apply (Hsetup (world sys)); [ by apply setup_effect_refl | done | done ].
  - (* checkAvailability settles *)
    destruct (setups sys !! n) as [[|b|]|] eqn:Hn; try discriminate.
    pose proof (initialize_probed_effect (world sys) Hok) as Heff.
    destruct (initialize_probed (world sys)) as [[w ev] st].
    destruct Heff as [Heff _]. injection Hstep as <-. by apply (Hsetup w).
  - (* create settles *)
    destruct (setups sys !! n) as [[|b|]|] eqn:Hn; try discriminate.
    destruct (Hse n _ Hn) as [_ Hentry]. specialize (Hentry ltac:(done)).
    destruct o as [streaming destroyable|e]; injection Hstep as <-.
    + eapply Hsetup; [ | reflexivity | reflexivity ].
      by apply createSession_finish_effect.
    + eapply Hsetup; [ | reflexivity | reflexivity ]. by apply setup_effect_refl.
  - (* initialize goes on after createSession *)
    destruct (setups sys !! n) as [[|b|]|] eqn:Hn; try discriminate.
    injection Hstep as <-.
    eapply Hsetup; [ | reflexivity | reflexivity ].
    by apply initialize_finish_effect.
Qed.

Lemma run_exclusive (ops : list Op) :
  forall sys sys',
    sound sys -> exclusive sys -> forallb undisturbed ops = true ->
    run sys ops = Some sys' ->
    exclusive sys'.
Proof.
  induction ops as [|op ops IH]; intros sys sys' Hsound Hex Hops Hrun;
    cbn [run forallb] in *.
  - by injection Hrun as <-.
  - apply andb_prop in Hops as [Hop Hops].
    destruct (step sys op) as [sys1|] eqn:Hstep; [ | discriminate ].
    eapply IH; [ | | exact Hops | exact Hrun ].
    + eapply step_sound; eauto.
    + eapply step_exclusive; eauto.
Qed.

(** *** The stored handle is live, unless a [createSession] is under way *)




(** ** What an accepted request can rely on *)



(** The same happens with no refusal while [createSession] waits for
    [create]: the old session is destroyed, its handle is still stored, and
    [processText] is accepted and prompts the destroyed session. *)
Lemma accepted_while_session_is_replaced :
  exists sys,
    run (boot (host_chrome138 "available")) recreating_ops = Some sys /\
    forallb create_granted recreating_ops = true /\
    creation_in_progress sys /\
    destroyed (world sys) = {[ 0 ]} /\
    processText (world sys) (ask "hi") []
    = Some (accepted_world (world sys),
            [StreamingUpdate "" true "ask" (metadata (ask "hi")) "hi";
             HostPromptStreaming 0 "hi" 0],
            Suspended (AwaitChunk (ask "hi") 0 "" false)).
Proof.
  exists (system_after recreating_ops).
  split; [ vm_compute; reflexivity | ]. split; [ reflexivity | ].
  split; [ right; exists 1, false; vm_compute; reflexivity | ].
  split; vm_compute; reflexivity.
Qed.


(** ** A second call while a request is in flight *)

(** C4 as stated fails: [stopProcessing] clears the busy flag while the
    stopped request is still suspended in its stream, so the next call is
    accepted and opens a second stream on the same session; and when the
    stopped request then unwinds, its [finally] clears the flag that the
    second request had set, so a third call is accepted and opens a stream
    while the second request, which nobody stopped, is in flight. *)
Lemma second_stream_opened_while_request_in_flight :
  (exists sys,
      run (boot (host_chrome138 "available")) unwinding_ops = Some sys /\
      pending sys !! 0 = Some (AwaitChunk (ask "first") 0 "He" true) /\
      processText (world sys) (ask "second") []
      = Some (accepted_world (world sys),
              [StreamingUpdate "" true "ask" (metadata (ask "second")) "second";
               HostPromptStreaming 0 "second" 1],
              Suspended (AwaitChunk (ask "second") 1 "" false)))
  /\ (exists sys,
         run (boot (host_chrome138 "available")) overlapping_ops = Some sys /\
         pending sys !! 1 = Some (AwaitChunk (ask "second") 1 "" false) /\
         aborted (world sys) = {[ 0 ]} /\
         processText (world sys) (ask "third") []
         = Some (accepted_world (world sys),
                 [StreamingUpdate "" true "ask" (metadata (ask "third")) "third";
                  HostPromptStreaming 0 "third" 2],
                 Suspended (AwaitChunk (ask "third") 2 "" false))).
Proof.
  split.
  - exists (system_after unwinding_ops).
    split; [ vm_compute; reflexivity | ]. split; vm_compute; reflexivity.
  - exists (system_after overlapping_ops).
    split; [ vm_compute; reflexivity | ]. split; [ vm_compute; reflexivity | ].
    split; vm_compute; reflexivity.
Qed.

(** C4, amended.  Take a state the page can reach in which no request is in
    flight, and let the page and the host go on from there in any way that
    does not call [stopProcessing] or [destroy].  Then, whenever a request
    is in flight, a call of [processText] throws "Já processando outra
    requisição", changes nothing and calls nothing, so no second stream is
    opened.  In any state, the same holds when a handle is stored and the
    busy flag is up, and a call made when no session is stored throws
    "Sessão da IA não disponível". *)
Theorem undisturbed_request_rejects_second_call
    (h : Host) (before since : list Op) (idle sys : System) (a : Args) :
  run (boot h) before = Some idle ->
  pending idle = ∅ ->
  run idle since = Some sys ->
  forallb undisturbed since = true ->
  (pending sys <> ∅ ->
   processText (world sys) a []
   = Some (world sys, [], Finished (Thrown already_processing)))
  /\ (is_Some (session (core (world sys))) ->
      isProcessing (core (world sys)) = true ->
      processText (world sys) a []
      = Some (world sys, [], Finished (Thrown already_processing)))
  /\ (session (core (world sys)) = None ->
      processText (world sys) a []
      = Some (world sys, [], Finished (Thrown session_unavailable))).
Proof.
  intros Hbefore Hidle Hsince Hops.
  assert (is_Some (session (core (world sys))) ->
          isProcessing (core (world sys)) = true ->
          processText (world sys) a []
          = Some (world sys, [], Finished (Thrown already_processing))) as Hbusy.
  { intros Hs Hb. unfold processText. by rewrite processText_start_busy. }
  split; [ | split; [ exact Hbusy | ] ].
  - intros Hp.
    pose proof (run_sound before _ _ (boot_sound h) Hbefore) as Hsound.
    destruct (run_exclusive since _ _ Hsound
                (exclusive_idle _ Hidle (sound_idle _ Hsound Hidle)) Hops Hsince)
      as [Hp0 _ | n f _ Hb Hs]; [ done | auto ].
  - intros Hs. unfold processText. by rewrite processText_start_no_session.
Qed.

Lemma undisturbed_request_rejects_second_call_witness :
  processText (world system_streaming) (ask "second") []
  = Some (world system_streaming, [], Finished (Thrown already_processing))
  /\ processText (world_booted host_chrome120) (ask "second") []
     = Some (world_booted host_chrome120, [],
             Finished (Thrown session_unavailable)).
Proof.
  split.
  - assert (run (boot (host_chrome138 "available")) initialize_ops
            = Some system_ready) as Hbefore by (vm_compute; reflexivity).
    assert (pending system_ready = ∅) as Hidle by (vm_compute; reflexivity).
    assert (run system_ready [OpProcessText (ask "first"); OpReply 0 (Chunk "He")]
            = Some system_streaming) as Hsince by (vm_compute; reflexivity).
    apply (proj1 (undisturbed_request_rejects_second_call
                    (host_chrome138 "available") initialize_ops
                    [OpProcessText (ask "first"); OpReply 0 (Chunk "He")]
                    system_ready system_streaming (ask "second")
                    Hbefore Hidle Hsince eq_refl)).
    intros Hp.
    assert (pending system_streaming !! 0
            = Some (AwaitChunk (ask "first") 0 "He" true)) as Hf
      by (vm_compute; reflexivity).
    by rewrite Hp, lookup_empty in Hf.
  - apply (proj2 (proj2 (undisturbed_request_rejects_second_call
                           host_chrome120 [] [] (boot host_chrome120)
                           (boot host_chrome120) (ask "second")
                           eq_refl eq_refl eq_refl eq_refl))).
    reflexivity.
Defined.

(** * The offline cache worker *)

Lemma cache_entry_put (caches : SW.CacheStorage) (name key : string)
    (response : SW.Response) :
  SW.cache_entry (SW.caches_put caches name key response) name key = Some response.
Proof.
  induction caches as [|[n cache] rest IH]; simpl.
  - rewrite decide_True by reflexivity. apply lookup_singleton_eq.
  - destruct (decide (n = name)) as [->|Hne]; simpl.
    + rewrite decide_True by reflexivity. apply lookup_insert_eq.
    + rewrite decide_False by exact Hne. exact IH.
Qed.

(** C9.  The fetch handler: a request whose method is not GET is left alone
    (no [respondWith], no fetch, caches untouched); a GET navigation is
    fetched from the network, the response is returned and stored under
    ['./index.html'] in the worker's cache, and when the fetch fails the
    cached ['./index.html'] is the answer; any other GET is answered from
    the caches when they have it, without a fetch, and otherwise fetched,
    returned and stored under the request in the worker's cache. *)
Theorem fetch_handler_policy
    (network : SW.Request -> option SW.Response)
    (caches : SW.CacheStorage) (request : SW.Request) :
  (SW.method request <> "GET" ->
   SW.onFetch network caches request
   = {| SW.answer := SW.PassThrough; SW.fetched := [];
        SW.caches_after := caches |})
  /\ (SW.method request = "GET" -> SW.mode request = "navigate" ->
      SW.fetched (SW.onFetch network caches request) = [request] /\
      match network request with
      | Some response =>
          SW.answer (SW.onFetch network caches request)
          = SW.RespondWith (Some response) /\
          SW.caches_after (SW.onFetch network caches request)
          = SW.caches_put caches SW.CACHE_NAME "./index.html" response /\
          SW.cache_entry (SW.caches_after (SW.onFetch network caches request))
                         SW.CACHE_NAME "./index.html" = Some response
      | None =>
          SW.answer (SW.onFetch network caches request)
          = SW.RespondWith (SW.caches_match caches "./index.html") /\
          SW.caches_after (SW.onFetch network caches request) = caches
      end)
  /\ (SW.method request = "GET" -> SW.mode request <> "navigate" ->
      match SW.caches_match caches (SW.url request) with
      | Some cachedResponse =>
          SW.onFetch network caches request
          = {| SW.answer := SW.RespondWith (Some cachedResponse);
               SW.fetched := []; SW.caches_after := caches |}
      | None =>
          SW.fetched (SW.onFetch network caches request) = [request] /\
          match network request with
          | Some response =>
              SW.answer (SW.onFetch network caches request)
              = SW.RespondWith (Some response) /\
              SW.caches_after (SW.onFetch network caches request)
              = SW.caches_put caches SW.CACHE_NAME (SW.url request) response /\
              SW.cache_entry (SW.caches_after (SW.onFetch network caches request))
                             SW.CACHE_NAME (SW.url request) = Some response
          | None =>
              SW.answer (SW.onFetch network caches request) = SW.RespondWith None /\
              SW.caches_after (SW.onFetch network caches request) = caches
          end
      end).
Proof.
  unfold SW.onFetch. split; [ | split ].
  - intros Hm. apply String.eqb_neq in Hm. by rewrite Hm.
  - intros Hm Hn. apply String.eqb_eq in Hm, Hn. rewrite Hm, Hn. simpl.
    destruct (network request) as [response|]; simpl.
    + repeat split. apply cache_entry_put.
    + by repeat split.
  - intros Hm Hn. apply String.eqb_eq in Hm. apply String.eqb_neq in Hn.
    rewrite Hm, Hn. simpl.
    destruct (SW.caches_match caches (SW.url request)) as [cached|]; [ reflexivity | ].
    destruct (network request) as [response|]; simpl.
    + repeat split. apply cache_entry_put.
    + by repeat split.
Qed.

Lemma fetch_handler_policy_witness :
  SW.onFetch network_page_only caches_with_style post_request
  = {| SW.answer := SW.PassThrough; SW.fetched := [];
       SW.caches_after := caches_with_style |}
  /\ (SW.answer (SW.onFetch network_page_only caches_with_style navigate_request)
      = SW.RespondWith (Some page_response)
      /\ SW.cache_entry
           (SW.caches_after
              (SW.onFetch network_page_only caches_with_style navigate_request))
           SW.CACHE_NAME "./index.html" = Some page_response)
  /\ SW.onFetch network_page_only caches_with_style style_request
     = {| SW.answer := SW.RespondWith (Some style_response); SW.fetched := [];
          SW.caches_after := caches_with_style |}.
Proof.
  pose proof (fetch_handler_policy network_page_only caches_with_style post_request)
    as [Hpost _].
  pose proof (fetch_handler_policy network_page_only caches_with_style navigate_request)
    as [_ [Hnav _]].
  pose proof (fetch_handler_policy network_page_only caches_with_style style_request)
    as [_ [_ Hstyle]].
  split; [ apply Hpost; discriminate | ].
  split.
  - destruct (Hnav eq_refl eq_refl) as [_ (Hanswer & _ & Hentry)].
    split; [ exact Hanswer | exact Hentry ].
  - apply Hstyle; [ reflexivity | discriminate ].
Defined.
